(** * The state factory of iotex-core ([state/factory.go])

    A shallow embedding of the account cache, the candidate pool, the
    action appliers ([handleTsf], [handleVote]) and the commit pipeline
    ([CommitStateChanges]), followed by the properties of the state-factory
    specification that are settled on it.

    Conventions.
    - [uint64] values are integers of [Z] in the range [0 .. 2^64); the only
      arithmetic the factory does on them that can wrap is the [+ 1] of the
      execution loop, written [wrap64].  [*big.Int] values are unbounded [Z].
    - [[]byte] is [list Z] (one entry per byte); fixed-size arrays
      ([hash.AddrHash], [hash.Hash32B]) are byte lists as well.
    - A Go function returning [(v, error)] returns [result]; a method that
      mutates the factory is a function in the monad [M], which threads the
      factory and keeps the mutations made before an error, the way the Go
      code does (nothing is rolled back).  [Crash] is a Go panic.
    - The cache [map[string]*State] holds pointers.  A pointer obtained from
      the cache is named by its key: reading a field through it is [deref],
      writing through it is [update].  Two pointers alias exactly when their
      keys are equal, which is how [LoadOrCreateState] hands them out.
    - The packages the factory consumes through interfaces ([trie.Trie],
      [db.KVStore], [Contract]), the codec and the address decoder are type
      classes; [MemModel] gives an in-memory instance of each.
    - The order of a [for ... range] over a Go map is a parameter
      ([RangeOrder]): any enumeration of the entries.

    The file has the model first (data, interfaces, the factory and its
    methods, the definitions the properties are stated with, the in-memory
    instances and the concrete blocks), then the properties, then their
    instances at the concrete blocks. *)

From Stdlib Require Import ZArith Lia String Ascii OrdersEx.
From stdpp Require Import base gmap strings list sorting.

Local Open Scope Z_scope.

Abbreviation bytes := (list Z).

(** ** Errors ([github.com/pkg/errors]) *)

Inductive error : Type :=
| ErrNotEnoughBalance
| ErrAccountNotExist
| ErrAccountCollision
| ErrFailedToMarshalState
| ErrFailedToUnmarshalState
| TrieErrNotExist
| ErrNew (msg : string)
| ErrWrap (cause : error) (msg : string).

#[global] Instance error_eq_dec : EqDecision error.
Proof. solve_decision. Defined.

(** [errors.Cause]: the innermost error of a chain of [errors.Wrap]. *)
Fixpoint Cause (e : error) : error :=
  match e with
  | ErrWrap c _ => Cause c
  | _ => e
  end.

Inductive result (A : Type) : Type :=
| Ok (a : A)
| Err (e : error).
Arguments Ok {A} a.
Arguments Err {A} e.

Inductive outcome (A : Type) : Type :=
| Ret (a : A)
| Fail (e : error)
| Crash.
Arguments Ret {A} a.
Arguments Fail {A} e.
Arguments Crash {A}.

(** ** Machine integers *)

Definition two64 : Z := 2 ^ 64.
Definition wrap64 (n : Z) : Z := n mod two64.
Definition is_uint64 (n : Z) : Prop := 0 <= n < two64.

(** Go's [int(x)] for [x : uint] on a 64-bit platform. *)
Definition uint_to_int (n : Z) : Z := if n <? 2 ^ 63 then n else n - two64.

(** ** [pkg/util/byteutil] *)

Module byteutil.

Fixpoint be_bytes (n : nat) (v : Z) : bytes :=
  match n with
  | O => []
  | S n' => be_bytes n' (v / 256) ++ [v mod 256]
  end.

Definition be_value (b : bytes) : Z :=
  fold_left (fun acc x => acc * 256 + x) b 0.

(** Modelled from the spec: [byteutil.Uint64ToBytes] is not in the sources;
    the persisted layout gives heights as 8 bytes, big-endian. *)
Definition Uint64ToBytes (v : Z) : bytes := be_bytes 8 v.

(** Modelled from the spec: [byteutil.BytesToUint64], the inverse reading of
    the first 8 bytes; [None] is the index-out-of-range panic on a shorter
    slice. *)
Definition BytesToUint64 (b : bytes) : option Z :=
  if (length b <? 8)%nat then None else Some (be_value (take 8 b)).

(** Modelled from the spec: [byteutil.BytesTo20B] copies a slice into a
    20-byte array (account keys are 20-byte public-key hashes). *)
Definition BytesTo20B (b : bytes) : bytes := take 20 (b ++ replicate 20 0).

End byteutil.
Export byteutil.

(** [hash.ZeroHash32B], the zero value of a [Hash32B]. *)
Definition ZeroHash32B : bytes := replicate 32 0.

(** [[]byte(s)] *)
Definition string_to_bytes (s : string) : bytes :=
  (fun c => Z.of_N (N_of_ascii c)) <$> list_ascii_of_string s.

(** ** Data model *)

(** Modelled from the spec: the account record of [state/state.go]. *)
Module State.
Record t : Type := mk {
  Nonce : Z;
  Balance : Z;
  Root : bytes;
  CodeHash : bytes;
  IsCandidate : bool;
  VotingWeight : Z;
  Votee : string
}.
Definition set_Nonce (n : Z) (s : t) : t :=
  mk n (Balance s) (Root s) (CodeHash s) (IsCandidate s) (VotingWeight s) (Votee s).
Definition set_Balance (b : Z) (s : t) : t :=
  mk (Nonce s) b (Root s) (CodeHash s) (IsCandidate s) (VotingWeight s) (Votee s).
Definition set_IsCandidate (c : bool) (s : t) : t :=
  mk (Nonce s) (Balance s) (Root s) (CodeHash s) c (VotingWeight s) (Votee s).
Definition set_VotingWeight (w : Z) (s : t) : t :=
  mk (Nonce s) (Balance s) (Root s) (CodeHash s) (IsCandidate s) w (Votee s).
Definition set_Votee (v : string) (s : t) : t :=
  mk (Nonce s) (Balance s) (Root s) (CodeHash s) (IsCandidate s) (VotingWeight s) v.
End State.

(** Modelled from the spec: the candidate record of [state/candidate.go].
    [handleVote] leaves [Votes] nil in a record it creates; the commit loop
    overwrites it (or drops the record) before anything reads it, and the
    model writes 0 for that nil. *)
Module Candidate.
Record t : Type := mk {
  Address : string;
  PubKey : bytes;
  Votes : Z;
  CreationHeight : Z;
  LastUpdateHeight : Z
}.
End Candidate.

Module Transfer.
Record t : Type := mk {
  Nonce : Z;
  Amount : Z;
  Sender : string;
  Recipient : string;
  IsCoinbase : bool;
  isContract : bool
}.
(** Modelled from the spec: [IsContract] tells whether the transfer marks
    itself as a contract call. *)
Definition IsContract (tx : t) : bool := isContract tx.
End Transfer.

Module Vote.
Record t : Type := mk {
  Nonce : Z;
  VoterAddress : string;
  VoteeAddress : string;
  SelfPubkey : bytes
}.
End Vote.

Module Execution.
Record t : Type := mk {
  Nonce : Z;
  Executor : string
}.
End Execution.

#[global] Instance State_eq_dec : EqDecision State.t.
Proof. solve_decision. Defined.
#[global] Instance Candidate_eq_dec : EqDecision Candidate.t.
Proof. solve_decision. Defined.

Definition CurrentHeightKey : string := "currentHeight".
Definition AccountTrieRootKey : string := "accountTrieRoot".
Definition CandidateTrieRootKey : string := "candidateTrieRoot".

(** Modelled from the spec: the three KV namespaces of the [trie] package. *)
Definition AccountKVNameSpace : string := "Account".
Definition CandidateKVNameSpace : string := "Candidate".
Definition ContractKVNameSpace : string := "Contract".

(** Modelled from the spec: [State.SubBalance] must not let the balance go
    negative, [State.AddBalance] adds. *)
Definition SubBalance (amount : Z) (st : State.t) : result State.t :=
  if amount >? State.Balance st then Err ErrNotEnoughBalance
  else Ok (State.set_Balance (State.Balance st - amount) st).

Definition AddBalance (amount : Z) (st : State.t) : result State.t :=
  Ok (State.set_Balance (State.Balance st + amount) st).

(** ** The candidate order and [sort.Sort] *)

(** Modelled from the spec: [CandidateList.Less] orders by votes descending,
    then creation height ascending, then address ascending. *)
Definition Less (a b : Candidate.t) : bool :=
  if Candidate.Votes a =? Candidate.Votes b then
    if Candidate.CreationHeight a =? Candidate.CreationHeight b then
      String.ltb (Candidate.Address a) (Candidate.Address b)
    else Candidate.CreationHeight a <? Candidate.CreationHeight b
  else Candidate.Votes b <? Candidate.Votes a.

(** [a] may stand before [b] in a sorted list. *)
Definition cand_le (a b : Candidate.t) : Prop := Less b a = false.

#[global] Instance cand_le_dec a b : Decision (cand_le a b).
Proof. unfold cand_le. apply _. Defined.

(** [sort.Sort(candidates)]: a permutation of the slice sorted by [Less].
    [sort.Sort] is not stable, and no two records of a pool that is keyed by
    address compare equal, so that every sorting algorithm returns this list
    ([sorted_pool_unique] below). *)
Definition sortCandidates (l : list Candidate.t) : list Candidate.t :=
  merge_sort cand_le l.

(** ** The interfaces the factory consumes *)

(** [trie.Trie], consumed through its interface: [Get], [Upsert], [Commit]
    (the flush of the batched writes) and [RootHash].  An operation that
    changes the trie returns the error and the trie after it.  The laws are
    the contract a caller relies on: a successful [Upsert] is read back by
    [Get], and [Commit] changes no reading. *)
Class Trie (T : Type) : Type := {
  trie_Get : T -> bytes -> result bytes;
  trie_Upsert : T -> bytes -> bytes -> option error * T;
  trie_Commit : T -> option error * T;
  trie_RootHash : T -> bytes;
  trie_RootHash_length : forall t, length (trie_RootHash t) = 32%nat;
  trie_Get_Upsert : forall t k v t',
    trie_Upsert t k v = (None, t') -> trie_Get t' k = Ok v;
  trie_Get_Commit : forall t t' k,
    trie_Commit t = (None, t') -> trie_Get t' k = trie_Get t k
}.

(** [db.KVStore], the namespaced store: a successful [Put] is read back by
    [Get] and leaves every other (namespace, key) as it was. *)
Class KVStore (K : Type) : Type := {
  kv_Get : K -> string -> bytes -> result bytes;
  kv_Put : K -> string -> bytes -> bytes -> option error * K;
  kv_Get_Put_eq : forall s ns k v s',
    kv_Put s ns k v = (None, s') -> kv_Get s' ns k = Ok v;
  kv_Get_Put_ne : forall s ns k v s' ns' k',
    kv_Put s ns k v = (None, s') -> (ns', k') <> (ns, k) ->
    kv_Get s' ns' k' = kv_Get s ns' k'
}.

(** The [Contract] handle with the constructor of its storage trie. *)
Class ContractStore (C T K : Type) : Type := {
  newContract : State.t -> T -> C;
  SelfState : C -> State.t;
  contract_Commit : C -> option error * C;
  NewTrie : K -> string -> bytes -> result T;
  isContract : State.t -> bool
}.

(** The codec of account records and candidate lists: [stateToBytes],
    [bytesToState], [Serialize], [Deserialize]. *)
Class Codec : Type := {
  stateToBytes : State.t -> result bytes;
  bytesToState : bytes -> result State.t;
  Serialize : list Candidate.t -> result bytes;
  Deserialize : bytes -> result (list Candidate.t)
}.

(** [iotxaddress.GetPubkeyHash]: the 20-byte public-key hash of an address
    string, or an error. *)
Class AddressCodec : Type := {
  GetPubkeyHash : string -> result bytes;
  GetPubkeyHash_length : forall a h,
    GetPubkeyHash a = Ok h -> length h = 20%nat
}.

(** The order in which a [for ... range] over a Go map visits the entries:
    some enumeration of them, not fixed by the language. *)
Class RangeOrder : Type := {
  range : forall {A : Type}, gmap string A -> list (string * A);
  range_hash : forall {A : Type}, gmap bytes A -> list (bytes * A);
  range_perm : forall A (m : gmap string A), range m ≡ₚ map_to_list m;
  range_hash_perm : forall A (m : gmap bytes A), range_hash m ≡ₚ map_to_list m
}.

(** ** The factory *)

Section Factory.
Context {T K C : Type}.
Context `{!Trie T, !KVStore K, !ContractStore C T K, !Codec, !AddressCodec}.
Context `{!RangeOrder}.

(** The fields of the Go struct that the operations below use.  [trieDB]
    is what [sf.accountTrie.TrieDB()] returns, the store in which the factory
    itself writes the two root hashes and the height.  The tries keep their
    nodes in the same store, under 32-byte hashes, which the three keys of the
    factory cannot be; the model keeps the content of each trie in the trie
    and the keys of the factory in [trieDB]. *)
Record factory : Type := mkFactory {
  currentChainHeight : Z;
  numCandidates : Z;
  cachedCandidates : gmap string Candidate.t;
  cachedAccount : gmap string State.t;
  cachedContract : gmap bytes C;
  accountTrie : T;
  candidateTrie : T;
  trieDB : K
}.

Definition set_currentChainHeight (h : Z) (sf : factory) : factory :=
  mkFactory h (numCandidates sf) (cachedCandidates sf) (cachedAccount sf)
    (cachedContract sf) (accountTrie sf) (candidateTrie sf) (trieDB sf).
Definition set_cachedCandidates (m : gmap string Candidate.t) (sf : factory) : factory :=
  mkFactory (currentChainHeight sf) (numCandidates sf) m (cachedAccount sf)
    (cachedContract sf) (accountTrie sf) (candidateTrie sf) (trieDB sf).
Definition set_cachedAccount (m : gmap string State.t) (sf : factory) : factory :=
  mkFactory (currentChainHeight sf) (numCandidates sf) (cachedCandidates sf) m
    (cachedContract sf) (accountTrie sf) (candidateTrie sf) (trieDB sf).
Definition set_cachedContract (m : gmap bytes C) (sf : factory) : factory :=
  mkFactory (currentChainHeight sf) (numCandidates sf) (cachedCandidates sf)
    (cachedAccount sf) m (accountTrie sf) (candidateTrie sf) (trieDB sf).
Definition set_accountTrie (t : T) (sf : factory) : factory :=
  mkFactory (currentChainHeight sf) (numCandidates sf) (cachedCandidates sf)
    (cachedAccount sf) (cachedContract sf) t (candidateTrie sf) (trieDB sf).
Definition set_candidateTrie (t : T) (sf : factory) : factory :=
  mkFactory (currentChainHeight sf) (numCandidates sf) (cachedCandidates sf)
    (cachedAccount sf) (cachedContract sf) (accountTrie sf) t (trieDB sf).
Definition set_trieDB (k : K) (sf : factory) : factory :=
  mkFactory (currentChainHeight sf) (numCandidates sf) (cachedCandidates sf)
    (cachedAccount sf) (cachedContract sf) (accountTrie sf) (candidateTrie sf) k.

(** *** The monad of factory methods *)

Definition M (A : Type) : Type := factory -> outcome A * factory.

Definition ret {A} (a : A) : M A := fun sf => (Ret a, sf).
Definition fail {A} (e : error) : M A := fun sf => (Fail e, sf).
Definition bind {A B} (m : M A) (k : A -> M B) : M B := fun sf =>
  match m sf with
  | (Ret a, sf') => k a sf'
  | (Fail e, sf') => (Fail e, sf')
  | (Crash, sf') => (Crash, sf')
  end.

Notation "'let*' x ':=' c 'in' k" := (bind c (fun x => k))
  (at level 10, x name, c at level 100, k at level 200).

Definition modify (f : factory -> factory) : M unit := fun sf => (Ret tt, f sf).
Definition liftR {A} (r : result A) : M A :=
  match r with Ok a => ret a | Err e => fail e end.
Definition liftE (e : option error) : M unit :=
  match e with None => ret tt | Some e => fail e end.

(** [if err := m; err != nil { return errors.Wrap(err, msg) }] *)
Definition wrapErr {A} (msg : string) (m : M A) : M A := fun sf =>
  match m sf with
  | (Fail e, sf') => (Fail (ErrWrap e msg), sf')
  | r => r
  end.

(** [for _, x := range l { body }], leaving at the first error. *)
Fixpoint forM_ {A} (body : A -> M unit) (l : list A) : M unit :=
  match l with
  | [] => ret tt
  | x :: l' => let* _ := body x in forM_ body l'
  end.

(** Reading and writing through a [*State] taken from [cachedAccount]. *)
Definition deref (addr : string) : M State.t := fun sf =>
  match cachedAccount sf !! addr with
  | Some s => (Ret s, sf)
  | None => (Crash, sf)
  end.

Definition update (addr : string) (f : State.t -> State.t) : M unit := fun sf =>
  match cachedAccount sf !! addr with
  | Some s => (Ret tt, set_cachedAccount (<[addr := f s]> (cachedAccount sf)) sf)
  | None => (Crash, sf)
  end.

Definition updateR (addr : string) (f : State.t -> result State.t) : M unit :=
  let* s := deref addr in
  let* s' := liftR (f s) in
  update addr (fun _ => s').

(** *** Account trie access *)

Definition getState (sf : factory) (hash : bytes) : result State.t :=
  match trie_Get (accountTrie sf) hash with
  | Err err =>
      if decide (Cause err = TrieErrNotExist)
      then Err (ErrWrap ErrAccountNotExist "addrHash")
      else Err err
  | Ok mstate => bytesToState mstate
  end.

Definition putState (state : State.t) (addr : bytes) : M unit :=
  let* ss := liftR (stateToBytes state) in
  fun sf =>
    let '(err, tr) := trie_Upsert (accountTrie sf) addr ss in
    liftE err (set_accountTrie tr sf).

(** *** State/Account functions *)

(** [&State{Balance: balance, VotingWeight: big.NewInt(0)}]: the other
    fields have their zero values. *)
Definition newState (init : Z) : State.t :=
  State.mk 0 init ZeroHash32B [] false 0 "".

Definition LoadOrCreateState (addr : string) (init : Z) : M State.t := fun sf =>
  match GetPubkeyHash addr with
  | Err err => (Fail (ErrWrap err "error when getting the pubkey hash"), sf)
  | Ok pkHash =>
      match cachedAccount sf !! addr with
      | Some state => (Ret state, sf)
      | None =>
          match getState sf (BytesTo20B pkHash) with
          | Err err =>
              if decide (Cause err = ErrAccountNotExist) then
                let state := newState init in
                (Ret state, set_cachedAccount (<[addr := state]> (cachedAccount sf)) sf)
              else (Fail err, sf)
          | Ok state =>
              (Ret state, set_cachedAccount (<[addr := state]> (cachedAccount sf)) sf)
          end
      end
  end.

Definition State (sf : factory) (addr : string) : result State.t :=
  match GetPubkeyHash addr with
  | Err err => Err (ErrWrap err "error when getting the pubkey hash")
  | Ok pkHash => getState sf (BytesTo20B pkHash)
  end.

Definition Balance (sf : factory) (addr : string) : result Z :=
  match GetPubkeyHash addr with
  | Err err => Err (ErrWrap err "error when getting the pubkey hash")
  | Ok pkHash =>
      match getState sf (BytesTo20B pkHash) with
      | Err err => Err err
      | Ok state => Ok (State.Balance state)
      end
  end.

Definition Nonce (sf : factory) (addr : string) : result Z :=
  match GetPubkeyHash addr with
  | Err err => Err (ErrWrap err "error when getting the pubkey hash")
  | Ok pkHash =>
      match getState sf (BytesTo20B pkHash) with
      | Err err => Err err
      | Ok state => Ok (State.Nonce state)
      end
  end.

Definition getContract (addr : bytes) : M C := fun sf =>
  match cachedContract sf !! addr with
  | Some contract => (Ret contract, sf)
  | None =>
      match getState sf addr with
      | Err err => (Fail (ErrWrap err "Failed to get contract"), sf)
      | Ok state =>
          if negb (isContract state)
          then (Fail (ErrNew "GetState success, but it is not contract"), sf)
          else
            match NewTrie (trieDB sf) ContractKVNameSpace (State.Root state) with
            | Err err =>
                (Fail (ErrWrap err "Failed to create storage trie for existing contract"), sf)
            | Ok tr =>
                let contract := newContract state tr in
                (Ret contract,
                 set_cachedContract (<[addr := contract]> (cachedContract sf)) sf)
            end
      end
  end.

Definition CachedState (addr : string) : M State.t := fun sf =>
  match GetPubkeyHash addr with
  | Err err => (Fail (ErrWrap err "error when getting the pubkey hash"), sf)
  | Ok pkHash =>
      match getContract (BytesTo20B pkHash) sf with
      | (Ret contract, sf1) => (Ret (SelfState contract), sf1)
      | (_, sf1) =>
          match cachedAccount sf1 !! addr with
          | Some state => (Ret state, sf1)
          | None =>
              match getState sf1 (BytesTo20B pkHash) with
              | Ok state =>
                  (Ret state,
                   set_cachedAccount (<[addr := state]> (cachedAccount sf1)) sf1)
              | Err err => (Fail err, sf1)
              end
          end
      end
  end.

Definition RootHash (sf : factory) : bytes := trie_RootHash (accountTrie sf).

Definition Height (sf : factory) : outcome Z :=
  match kv_Get (trieDB sf) AccountKVNameSpace (string_to_bytes CurrentHeightKey) with
  | Err err => Fail (ErrWrap err "failed to get factory's height from underlying db")
  | Ok height =>
      match BytesToUint64 height with
      | Some h => Ret h
      | None => Crash
      end
  end.

(** *** Candidate functions *)

(** Modelled from the spec: [MapToCandidates] lists the records of the live
    pool (in map-iteration order) and [CandidatesToMap] rebuilds the pool
    from a list, keyed by address; [state/candidate.go] is not in the
    sources. *)
Definition MapToCandidates (candidateMap : gmap string Candidate.t)
  : result (list Candidate.t) :=
  Ok (snd <$> range candidateMap).

Definition CandidatesToMap (candidates : list Candidate.t)
  : result (gmap string Candidate.t) :=
  Ok (fold_left (fun m cand => <[Candidate.Address cand := cand]> m) candidates ∅).

(** [None] is the slice-bounds panic of [candidates[:sf.numCandidates]]. *)
Definition Candidates (sf : factory) : option (Z * list Candidate.t) :=
  let candidates :=
    match MapToCandidates (cachedCandidates sf) with
    | Ok l => l
    | Err _ => []
    end in
  if Z.of_nat (length candidates) <=? uint_to_int (numCandidates sf)
  then Some (currentChainHeight sf, candidates)
  else
    let sorted := sortCandidates candidates in
    if numCandidates sf <=? Z.of_nat (length sorted)
    then Some (currentChainHeight sf, take (Z.to_nat (numCandidates sf)) sorted)
    else None.

Definition getCandidates (sf : factory) (height : Z) : result (list Candidate.t) :=
  match trie_Get (candidateTrie sf) (Uint64ToBytes height) with
  | Err err => Err (ErrWrap err "failed to get candidates on height")
  | Ok candidatesBytes => Deserialize candidatesBytes
  end.

(** [None] is the slice-bounds panic, as in [Candidates]. *)
Definition CandidatesByHeight (sf : factory) (height : Z)
  : option (result (list Candidate.t)) :=
  match getCandidates sf height with
  | Err err => Some (Err (ErrWrap err "failed to get candidates on height"))
  | Ok candidates =>
      if uint_to_int (numCandidates sf) <? Z.of_nat (length candidates)
      then
        if numCandidates sf <=? Z.of_nat (length candidates)
        then Some (Ok (take (Z.to_nat (numCandidates sf)) candidates))
        else None
      else Some (Ok candidates)
  end.

(** The nil dereference when the address is not in the pool is [Crash]. *)
Definition updateCandidate (address : string) (totalWeight : Z) (blockHeight : Z)
  : M unit := fun sf =>
  match cachedCandidates sf !! address with
  | Some candidate =>
      let candidate' :=
        Candidate.mk (Candidate.Address candidate) (Candidate.PubKey candidate)
          totalWeight (Candidate.CreationHeight candidate) blockHeight in
      (Ret tt, set_cachedCandidates (<[address := candidate']> (cachedCandidates sf)) sf)
  | None => (Crash, sf)
  end.

(** *** Transfers and votes *)

Definition has_votee (votee self : string) : bool :=
  (0 <? String.length votee)%nat && negb (String.eqb votee self).

(** The body of the loop of [handleTsf], in its two blocks: [// check
    sender] to [// Update sender votes], run for a transfer that is not a
    coinbase, and [// check recipient] to [// Update recipient votes]. *)
Definition debitSender (tx : Transfer.t) : M unit :=
  let* sender := LoadOrCreateState (Transfer.Sender tx) 0 in
  if Transfer.Amount tx >? State.Balance sender
  then fail ErrNotEnoughBalance
  else
    let* _ := updateR (Transfer.Sender tx) (SubBalance (Transfer.Amount tx)) in
    let* sender := deref (Transfer.Sender tx) in
    let* _ :=
      (if Transfer.Nonce tx >? State.Nonce sender
       then update (Transfer.Sender tx) (State.set_Nonce (Transfer.Nonce tx))
       else ret tt) in
    let* sender := deref (Transfer.Sender tx) in
    if has_votee (State.Votee sender) (Transfer.Sender tx) then
      let* _ := LoadOrCreateState (State.Votee sender) 0 in
      update (State.Votee sender)
        (fun s => State.set_VotingWeight (State.VotingWeight s - Transfer.Amount tx) s)
    else ret tt.

Definition creditRecipient (tx : Transfer.t) : M unit :=
  let* _ := LoadOrCreateState (Transfer.Recipient tx) 0 in
  let* _ := updateR (Transfer.Recipient tx) (AddBalance (Transfer.Amount tx)) in
  let* recipient := deref (Transfer.Recipient tx) in
  if has_votee (State.Votee recipient) (Transfer.Recipient tx) then
    let* _ := LoadOrCreateState (State.Votee recipient) 0 in
    update (State.Votee recipient)
      (fun s => State.set_VotingWeight (State.VotingWeight s + Transfer.Amount tx) s)
  else ret tt.

Definition handleTsf_tx (tx : Transfer.t) : M unit :=
  if Transfer.IsContract tx then ret tt
  else
    let* _ := (if negb (Transfer.IsCoinbase tx) then debitSender tx else ret tt) in
    creditRecipient tx.

Definition handleTsf (tsf : list Transfer.t) : M unit :=
  forM_ handleTsf_tx tsf.

(** The body of the loop of [handleVote], in its blocks: loading the voter
    and [// update voteFrom nonce], [// Update old votee's weight], and the
    rest, from [voteeAddress := pbVote.VoteeAddress] on. *)
Definition loadVoter (v : Vote.t) : M unit :=
  let* voteFrom := LoadOrCreateState (Vote.VoterAddress v) 0 in
  if Vote.Nonce v >? State.Nonce voteFrom
  then update (Vote.VoterAddress v) (State.set_Nonce (Vote.Nonce v))
  else ret tt.

Definition revokeVote (v : Vote.t) : M unit :=
  let* voteFrom := deref (Vote.VoterAddress v) in
  if has_votee (State.Votee voteFrom) (Vote.VoterAddress v) then
    let* _ := LoadOrCreateState (State.Votee voteFrom) 0 in
    let* voteFrom := deref (Vote.VoterAddress v) in
    let* _ :=
      update (State.Votee voteFrom)
        (fun s => State.set_VotingWeight
                    (State.VotingWeight s - State.Balance voteFrom) s) in
    update (Vote.VoterAddress v) (State.set_Votee "")
  else ret tt.

Definition castVote (blockHeight : Z) (v : Vote.t) : M unit :=
  let voterAddress := Vote.VoterAddress v in
  let voteeAddress := Vote.VoteeAddress v in
  if String.eqb voteeAddress "" then
    update voterAddress (State.set_IsCandidate false)
  else
    let* _ := LoadOrCreateState voteeAddress 0 in
    if negb (String.eqb voterAddress voteeAddress) then
      let* voteFrom := deref voterAddress in
      let* _ :=
        update voteeAddress
          (fun s => State.set_VotingWeight
                      (State.VotingWeight s + State.Balance voteFrom) s) in
      update voterAddress (State.set_Votee voteeAddress)
    else
      let* _ := update voterAddress (State.set_Votee voterAddress) in
      let* _ := update voterAddress (State.set_IsCandidate true) in
      fun sf =>
        match cachedCandidates sf !! voterAddress with
        | Some _ => (Ret tt, sf)
        | None =>
            let cand := Candidate.mk voterAddress (Vote.SelfPubkey v) 0 blockHeight 0 in
            (Ret tt,
             set_cachedCandidates (<[voterAddress := cand]> (cachedCandidates sf)) sf)
        end.

Definition handleVote_v (blockHeight : Z) (v : Vote.t) : M unit :=
  let* _ := loadVoter v in
  let* _ := revokeVote v in
  castVote blockHeight v.

Definition handleVote (blockHeight : Z) (vote : list Vote.t) : M unit :=
  forM_ (handleVote_v blockHeight) vote.

(** *** The commit pipeline *)

(** [addr, _ := iotxaddress.GetPubkeyHash(address)]: the error is dropped
    and [addr] is then the nil slice. *)
Definition pubkeyHash_or_nil (address : string) : bytes :=
  match GetPubkeyHash address with
  | Ok addr => addr
  | Err _ => []
  end.

(** Recover cachedCandidates after restart factory. *)
Definition recoverCandidates (blockHeight : Z) : M unit := fun sf =>
  if (0 <? blockHeight) && (size (cachedCandidates sf) =? 0)%nat then
    match getCandidates sf (blockHeight - 1) with
    | Err err =>
        (Fail (ErrWrap err "failed to get previous candidates on height"), sf)
    | Ok candidates =>
        match CandidatesToMap candidates with
        | Ok m => (Ret tt, set_cachedCandidates m sf)
        | Err err =>
            (Fail (ErrWrap err
               "failed to convert candidate list to map of cached candidates"),
             sf)
        end
    end
  else (Ret tt, sf).

(** The body of the loop over [sf.cachedAccount]. *)
Definition commitAccount (blockHeight : Z) (entry : string * State.t) : M unit :=
  let '(address, state) := entry in
  let addr := pubkeyHash_or_nil address in
  let* _ := putState state addr in
  if negb (State.IsCandidate state) then
    modify (fun sf => set_cachedCandidates (delete address (cachedCandidates sf)) sf)
  else
    let totalWeight := 0 + State.VotingWeight state in
    let totalWeight :=
      if String.eqb (State.Votee state) address
      then totalWeight + State.Balance state
      else totalWeight in
    updateCandidate address totalWeight blockHeight.

(** The body of the loop over [sf.cachedContract]. *)
Definition commitContract (entry : bytes * C) : M unit :=
  let '(addr, contract) := entry in
  let* contract :=
    (fun sf =>
       let '(err, contract') := contract_Commit contract in
       let sf' := set_cachedContract (<[addr := contract']> (cachedContract sf)) sf in
       match err with
       | Some e => (Fail e, sf')
       | None => (Ret contract', sf')
       end) in
  putState (SelfState contract) addr.

Definition bumpNonce (e : Execution.t) (state : State.t) : State.t :=
  let state := State.set_Nonce (wrap64 (State.Nonce state + 1)) state in
  if Execution.Nonce e >? State.Nonce state
  then State.set_Nonce (Execution.Nonce e) state
  else state.

(** The body of the loop over [executions]. *)
Definition commitExecution (e : Execution.t) : M unit := fun sf =>
  let addr := pubkeyHash_or_nil (Execution.Executor e) in
  match cachedAccount sf !! Execution.Executor e with
  | Some state =>
      let state := bumpNonce e state in
      putState state addr
        (set_cachedAccount (<[Execution.Executor e := state]> (cachedAccount sf)) sf)
  | None =>
      match getState sf (BytesTo20B addr) with
      | Err err => (Fail err, sf)
      | Ok state => putState (bumpNonce e state) addr sf
      end
  end.

Definition accountTrie_Commit : M unit := fun sf =>
  let '(err, tr) := trie_Commit (accountTrie sf) in
  match err with
  | Some e =>
      (Fail (ErrWrap e "failed to commit changes to account Trie in a batch"),
       set_accountTrie tr sf)
  | None => (Ret tt, set_accountTrie tr sf)
  end.

(** Persist new list of candidates to candidateTrie. *)
Definition persistCandidates (blockHeight : Z) : M unit :=
  let* candidates :=
    wrapErr "failed to convert map of cached candidates to candidate list"
      (fun sf => liftR (MapToCandidates (cachedCandidates sf)) sf) in
  let candidates := sortCandidates candidates in
  let* candidatesBytes :=
    wrapErr "failed to serialize candidates" (liftR (Serialize candidates)) in
  let* _ :=
    wrapErr "failed to insert candidates on height into candidateTrie"
      (fun sf =>
         let '(err, tr) :=
           trie_Upsert (candidateTrie sf) (Uint64ToBytes blockHeight) candidatesBytes in
         liftE err (set_candidateTrie tr sf)) in
  wrapErr "failed to commit changes to account Trie in a batch"
    (fun sf =>
       let '(err, tr) := trie_Commit (candidateTrie sf) in
       liftE err (set_candidateTrie tr sf)).

Definition trieDB_Put (ns : string) (key value : bytes) : M unit := fun sf =>
  let '(err, db) := kv_Put (trieDB sf) ns key value in
  liftE err (set_trieDB db sf).

(** Persist the two root hashes, then the height. *)
Definition persistRoots (blockHeight : Z) : M unit :=
  let* accountRootHash := (fun sf => ret (RootHash sf) sf) in
  let* _ :=
    wrapErr "failed to update accountTrie's root hash in underlying db"
      (trieDB_Put AccountKVNameSpace (string_to_bytes AccountTrieRootKey)
         accountRootHash) in
  let* candidateRootHash := (fun sf => ret (trie_RootHash (candidateTrie sf)) sf) in
  let* _ :=
    wrapErr "failed to update candidateTrie's root hash in underlying db"
      (trieDB_Put CandidateKVNameSpace (string_to_bytes CandidateTrieRootKey)
         candidateRootHash) in
  let* _ := modify (set_currentChainHeight blockHeight) in
  trieDB_Put AccountKVNameSpace (string_to_bytes CurrentHeightKey)
    (Uint64ToBytes blockHeight).

Definition CommitStateChanges (blockHeight : Z) (tsf : list Transfer.t)
    (vote : list Vote.t) (executions : list Execution.t) : M unit :=
  let* _ := recoverCandidates blockHeight in
  let* _ := handleTsf tsf in
  let* _ := handleVote blockHeight vote in
  let* _ := (fun sf => forM_ (commitAccount blockHeight) (range (cachedAccount sf)) sf) in
  let* _ := (fun sf => forM_ commitContract (range_hash (cachedContract sf)) sf) in
  let* _ := forM_ commitExecution executions in
  let* _ := accountTrie_Commit in
  let* _ := persistCandidates blockHeight in
  persistRoots blockHeight.

(** ** Definitions used to state the properties *)

(** [keeps R m]: the factory after the method [m] is related by [R] to the
    factory before it, whatever the outcome. *)
Definition keeps {A} (R : factory -> factory -> Prop) (m : M A) : Prop :=
  forall sf, R sf (snd (m sf)).

(** The persisted part of a factory: both tries and the KV store. *)
Definition same_store (sf sf' : factory) : Prop :=
  accountTrie sf' = accountTrie sf /\
  candidateTrie sf' = candidateTrie sf /\
  trieDB sf' = trieDB sf.

(** The record an applier works on at address [a]: what
    [LoadOrCreateState a 0] hands out, that is the cached record, else the
    one decoded from the account trie, else a new empty record; [None] when
    the address does not decode or the trie read fails. *)
Definition viewState (sf : factory) (a : string) : option State.t :=
  match GetPubkeyHash a with
  | Err _ => None
  | Ok pkHash =>
      match cachedAccount sf !! a with
      | Some s => Some s
      | None =>
          match getState sf (BytesTo20B pkHash) with
          | Ok s => Some s
          | Err err =>
              if decide (Cause err = ErrAccountNotExist) then Some (newState 0) else None
          end
      end
  end.

(** What the specification says a transfer does to the record [s] at
    address [a]: the sender is debited and its nonce raised, its votee (when [votee] is
    not empty and not the sender) loses the amount of voting weight ... *)
Definition debited (tx : Transfer.t) (votee : string) (a : string) (s : State.t)
  : State.t :=
  let s :=
    if decide (a = Transfer.Sender tx)
    then State.set_Nonce (Z.max (State.Nonce s) (Transfer.Nonce tx))
           (State.set_Balance (State.Balance s - Transfer.Amount tx) s)
    else s in
  if bool_decide (a = votee) && has_votee votee (Transfer.Sender tx)
  then State.set_VotingWeight (State.VotingWeight s - Transfer.Amount tx) s
  else s.

(** ... then the recipient is credited, and its votee (when [votee] is not
    empty and not the recipient) gains the amount of voting weight. *)
Definition credited (tx : Transfer.t) (votee : string) (a : string) (s : State.t)
  : State.t :=
  let s :=
    if decide (a = Transfer.Recipient tx)
    then State.set_Balance (State.Balance s + Transfer.Amount tx) s
    else s in
  if bool_decide (a = votee) && has_votee votee (Transfer.Recipient tx)
  then State.set_VotingWeight (State.VotingWeight s + Transfer.Amount tx) s
  else s.

(** What the specification says a vote does to the record [s] at address
    [a], in the order of the code: the nonce of the voter is raised ... *)
Definition vote_nonced (v : Vote.t) (a : string) (s : State.t) : State.t :=
  if decide (a = Vote.VoterAddress v)
  then State.set_Nonce (Z.max (State.Nonce s) (Vote.Nonce v)) s
  else s.

(** ... a previous votee [old] that is not empty and not the voter loses the
    whole balance [bal] of the voter, whose votee is cleared ... *)
Definition vote_revoked (v : Vote.t) (old : string) (bal : Z) (a : string)
    (s : State.t) : State.t :=
  if has_votee old (Vote.VoterAddress v) then
    let s :=
      if decide (a = old)
      then State.set_VotingWeight (State.VotingWeight s - bal) s
      else s in
    if decide (a = Vote.VoterAddress v) then State.set_Votee "" s else s
  else s.

(** ... and then: an empty votee address unvotes; another address gains the
    balance of the voter and becomes its votee; the address of the voter
    makes it its own votee and a candidate. *)
Definition vote_cast (v : Vote.t) (bal : Z) (a : string) (s : State.t) : State.t :=
  if decide (Vote.VoteeAddress v = "") then
    if decide (a = Vote.VoterAddress v) then State.set_IsCandidate false s else s
  else if decide (Vote.VoterAddress v = Vote.VoteeAddress v) then
    if decide (a = Vote.VoterAddress v)
    then State.set_IsCandidate true (State.set_Votee (Vote.VoterAddress v) s)
    else s
  else
    let s :=
      if decide (a = Vote.VoteeAddress v)
      then State.set_VotingWeight (State.VotingWeight s + bal) s
      else s in
    if decide (a = Vote.VoterAddress v)
    then State.set_Votee (Vote.VoteeAddress v) s
    else s.

(** The pool after a vote: a self-vote of an address that is not in the pool
    adds a record created at the block height. *)
Definition pool_voted (blockHeight : Z) (v : Vote.t)
    (pool : gmap string Candidate.t) : gmap string Candidate.t :=
  if decide (Vote.VoteeAddress v <> "" /\ Vote.VoterAddress v = Vote.VoteeAddress v)
  then
    match pool !! Vote.VoterAddress v with
    | Some _ => pool
    | None =>
        <[Vote.VoterAddress v :=
            Candidate.mk (Vote.VoterAddress v) (Vote.SelfPubkey v) 0 blockHeight 0]> pool
    end
  else pool.

(** A pool is keyed by address: the record under key [k] has address [k]. *)
Definition pool_keyed (pool : gmap string Candidate.t) : Prop :=
  forall k c, pool !! k = Some c -> Candidate.Address c = k.

(** The candidate pool is left as it is. *)
Definition same_pool (sf sf' : factory) : Prop :=
  cachedCandidates sf' = cachedCandidates sf.

(** A pool keyed by address stays so. *)
Definition keyed_step (sf sf' : factory) : Prop :=
  pool_keyed (cachedCandidates sf) -> pool_keyed (cachedCandidates sf').
End Factory.

Arguments factory T K C : clear implicits.
Arguments M T K C A : clear implicits.

(** ** In-memory implementations of the interfaces

    Small executable stand-ins for the trie, the KV store, the contract
    handle, the codec and the address decoder.  The properties below are
    proved for every implementation of the classes; these instances show
    that the classes are inhabited and run the factory on concrete blocks. *)

Module MemModel.

(** A trie as the finite map it represents: [entries] is the working view
    (batched writes included), [flushed] what the last [Commit] wrote out. *)
Record MemTrie : Type := mkMemTrie {
  entries : gmap bytes bytes;
  flushed : gmap bytes bytes
}.

Definition emptyTrie : MemTrie := mkMemTrie ∅ ∅.

Definition mem_digest (m : gmap bytes bytes) : Z :=
  fold_left (fun acc kv => acc * 31 + be_value (fst kv) * 7 + be_value (snd kv) + 1)
    (map_to_list m) 0.

Definition mem_Get (t : MemTrie) (k : bytes) : result bytes :=
  match entries t !! k with
  | Some v => Ok v
  | None => Err (ErrWrap TrieErrNotExist "key does not exist")
  end.

Definition mem_Upsert (t : MemTrie) (k v : bytes) : option error * MemTrie :=
  (None, mkMemTrie (<[k := v]> (entries t)) (flushed t)).

Definition mem_Commit (t : MemTrie) : option error * MemTrie :=
  (None, mkMemTrie (entries t) (entries t)).

Definition mem_RootHash (t : MemTrie) : bytes := be_bytes 32 (mem_digest (entries t)).

#[global] Instance MemTrie_Trie : Trie MemTrie.
Proof.
  refine {| trie_Get := mem_Get; trie_Upsert := mem_Upsert;
            trie_Commit := mem_Commit; trie_RootHash := mem_RootHash |}.
  - intros t. unfold mem_RootHash. generalize (mem_digest (entries t)).
    generalize 32%nat. intros n. induction n as [|n IH]; intros v; simpl;
      [reflexivity|].
    rewrite length_app, IH. simpl. lia.
  - intros t k v t' Hup. injection Hup as <-. unfold mem_Get. simpl.
    by rewrite lookup_insert_eq.
  - intros t t' k Hc. injection Hc as <-. reflexivity.
Defined.

(** The KV store: a finite map from (namespace, key) to value. *)
Abbreviation MemKV := (gmap (string * bytes) bytes).

Definition memkv_Get (s : MemKV) (ns : string) (k : bytes) : result bytes :=
  match s !! (ns, k) with
  | Some v => Ok v
  | None => Err (ErrNew "key does not exist in the store")
  end.

Definition memkv_Put (s : MemKV) (ns : string) (k v : bytes) : option error * MemKV :=
  (None, <[(ns, k) := v]> s).

#[global] Instance MemKV_KVStore : KVStore MemKV.
Proof.
  refine {| kv_Get := memkv_Get; kv_Put := memkv_Put |}.
  - intros s ns k v s' Hput. injection Hput as <-. unfold memkv_Get.
    by rewrite lookup_insert_eq.
  - intros s ns k v s' ns' k' Hput Hne. injection Hput as <-. unfold memkv_Get.
    rewrite lookup_insert_ne; [reflexivity|]. intros Heq. apply Hne. by symmetry.
Defined.

(** A contract handle: the account record and the storage trie. *)
Record MemContract : Type := mkMemContract {
  self : State.t;
  storage : MemTrie
}.

Definition memc_Commit (c : MemContract) : option error * MemContract :=
  let tr := snd (mem_Commit (storage c)) in
  let st := self c in
  (None,
   mkMemContract
     (State.mk (State.Nonce st) (State.Balance st) (mem_RootHash tr)
        (State.CodeHash st) (State.IsCandidate st) (State.VotingWeight st)
        (State.Votee st))
     tr).

#[global] Instance MemContract_ContractStore : ContractStore MemContract MemTrie MemKV :=
  {| newContract := mkMemContract;
     SelfState := self;
     contract_Commit := memc_Commit;
     NewTrie := fun _ _ _ => Ok emptyTrie;
     isContract := fun st => negb (forallb (Z.eqb 0) (State.Root st)) |}.

(** A length-prefixed codec; every integer field takes one entry. *)
Definition bytes_to_string (b : bytes) : string :=
  string_of_list_ascii ((fun z => ascii_of_N (Z.to_N z)) <$> b).

Definition enc_bytes (b : bytes) : bytes := Z.of_nat (length b) :: b.

Definition dec_bytes (b : bytes) : option (bytes * bytes) :=
  match b with
  | [] => None
  | n :: rest =>
      if (0 <=? n) && (n <=? Z.of_nat (length rest))
      then Some (take (Z.to_nat n) rest, drop (Z.to_nat n) rest)
      else None
  end.

Definition mem_stateToBytes (s : State.t) : result bytes :=
  Ok ([State.Nonce s; State.Balance s; (if State.IsCandidate s then 1 else 0);
       State.VotingWeight s]
      ++ enc_bytes (State.Root s) ++ enc_bytes (State.CodeHash s)
      ++ enc_bytes (string_to_bytes (State.Votee s))).

Definition mem_bytesToState (b : bytes) : result State.t :=
  match b with
  | nonce :: balance :: cand :: weight :: rest =>
      match dec_bytes rest with
      | Some (root, rest1) =>
          match dec_bytes rest1 with
          | Some (code, rest2) =>
              match dec_bytes rest2 with
              | Some (votee, []) =>
                  Ok (State.mk nonce balance root code (negb (cand =? 0)) weight
                        (bytes_to_string votee))
              | _ => Err ErrFailedToUnmarshalState
              end
          | None => Err ErrFailedToUnmarshalState
          end
      | None => Err ErrFailedToUnmarshalState
      end
  | _ => Err ErrFailedToUnmarshalState
  end.

Definition enc_candidate (c : Candidate.t) : bytes :=
  enc_bytes (string_to_bytes (Candidate.Address c)) ++ enc_bytes (Candidate.PubKey c)
  ++ [Candidate.Votes c; Candidate.CreationHeight c; Candidate.LastUpdateHeight c].

Definition dec_candidate (b : bytes) : option (Candidate.t * bytes) :=
  match dec_bytes b with
  | Some (addr, rest) =>
      match dec_bytes rest with
      | Some (pk, votes :: ch :: luh :: rest') =>
          Some (Candidate.mk (bytes_to_string addr) pk votes ch luh, rest')
      | _ => None
      end
  | None => None
  end.

Fixpoint dec_candidates (n : nat) (b : bytes) : option (list Candidate.t) :=
  match n with
  | O => match b with [] => Some [] | _ => None end
  | S n' =>
      match dec_candidate b with
      | Some (c, rest) =>
          match dec_candidates n' rest with
          | Some l => Some (c :: l)
          | None => None
          end
      | None => None
      end
  end.

Definition mem_Serialize (l : list Candidate.t) : result bytes :=
  Ok (Z.of_nat (length l) :: concat (enc_candidate <$> l)).

Definition mem_Deserialize (b : bytes) : result (list Candidate.t) :=
  match b with
  | n :: rest =>
      if 0 <=? n then
        match dec_candidates (Z.to_nat n) rest with
        | Some l => Ok l
        | None => Err (ErrNew "failed to unmarshal candidates")
        end
      else Err (ErrNew "failed to unmarshal candidates")
  | [] => Err (ErrNew "failed to unmarshal candidates")
  end.

#[global] Instance MemCodec : Codec :=
  {| stateToBytes := mem_stateToBytes;
     bytesToState := mem_bytesToState;
     Serialize := mem_Serialize;
     Deserialize := mem_Deserialize |}.

(** Addresses: a name of 1 to 20 characters, whose key is the name padded
    to 20 bytes. *)
Definition mem_GetPubkeyHash (a : string) : result bytes :=
  if ((0 <? String.length a) && (String.length a <=? 20))%nat
  then Ok (BytesTo20B (string_to_bytes a))
  else Err (ErrNew "invalid address").

#[global] Instance MemAddressCodec : AddressCodec.
Proof.
  refine {| GetPubkeyHash := mem_GetPubkeyHash |}.
  intros a h. unfold mem_GetPubkeyHash.
  destruct (_ && _)%nat; [|discriminate].
  intros [= <-]. unfold BytesTo20B.
  rewrite length_take, length_app, length_replicate. lia.
Defined.

(** Two iteration orders a Go map may show: the order of [map_to_list] and
    its reverse. *)
Definition forwardOrder : RangeOrder.
Proof.
  refine {| range := fun A m => map_to_list m;
            range_hash := fun A m => map_to_list m |}; reflexivity.
Defined.

Definition backwardOrder : RangeOrder.
Proof.
  refine {| range := fun A m => reverse (map_to_list m);
            range_hash := fun A m => reverse (map_to_list m) |};
    intros; apply reverse_Permutation.
Defined.

Abbreviation memFactory := (factory MemTrie MemKV MemContract).

(** A freshly started factory on empty stores. *)
Definition genesis (numCandidates : Z) : memFactory :=
  mkFactory 0 numCandidates ∅ ∅ ∅ emptyTrie emptyTrie ∅.

End MemModel.

(** ** Concrete blocks

    The factory run on the in-memory stores, for the instances of the
    properties at concrete blocks. *)

Import MemModel.

#[local] Existing Instance forwardOrder.

(** A factory holding account A with balance 100. *)
Definition funded : memFactory :=
  snd (LoadOrCreateState "A" 100 (genesis 2)).

(** A has voted for C and B for D. *)
Definition voted : memFactory :=
  snd (handleVote 0 [Vote.mk 1 "A" "C" []; Vote.mk 1 "B" "D" []] funded).

Definition tsf_A_B_30 : Transfer.t := Transfer.mk 2 30 "A" "B" false false.

Definition vote_A_A : Vote.t := Vote.mk 3 "A" "A" [1].

Definition block0 : memFactory :=
  snd (CommitStateChanges 0 [Transfer.mk 1 30 "A" "B" false false] [] [] funded).

Definition block1 : memFactory :=
  snd (CommitStateChanges 1 []
         [Vote.mk 2 "A" "A" [1; 2]; Vote.mk 1 "B" "A" [3]]
         [Execution.mk 3 "A"] block0).

(** A factory holding account A with balance 10. *)
Definition poor : memFactory :=
  snd (LoadOrCreateState "A" 10 (genesis 2)).

Definition overdraw : Transfer.t := Transfer.mk 1 20 "A" "B" false false.

(** Two self-nominated accounts, A with 50 votes and B with 100. *)
Definition nominate : list Vote.t :=
  [Vote.mk 1 "A" "A" [1]; Vote.mk 1 "B" "B" [2]].

Definition two_accounts (numCandidates : Z) : memFactory :=
  snd (LoadOrCreateState "B" 100
         (snd (LoadOrCreateState "A" 50 (genesis numCandidates)))).

Definition two_candidates (numCandidates : Z) : memFactory :=
  snd (CommitStateChanges 0 [] nominate [] (two_accounts numCandidates)).

Definition cand_A : Candidate.t := Candidate.mk "A" [1] 50 0 0.

Definition cand_B : Candidate.t := Candidate.mk "B" [2] 100 0 0.

Definition exec_A_1 : Execution.t := Execution.mk 1 "A".

Definition max_uint64 : Z := 18446744073709551615.

Definition after_max_nonce : memFactory :=
  snd (CommitStateChanges 0 [Transfer.mk max_uint64 1 "A" "B" false false] [] []
         funded).

Definition after_execution : memFactory :=
  snd (CommitStateChanges 1 [] [] [Execution.mk 7 "A"] after_max_nonce).

(** * Properties *)

(** ** Byte encodings *)

Lemma be_bytes_length n v : length (be_bytes n v) = n.
Proof.
  revert v. induction n as [|n IH]; intros v; simpl; [reflexivity|].
  rewrite length_app, IH. simpl. lia.
Qed.

Lemma be_value_app (b : bytes) (x : Z) :
  be_value (b ++ [x]) = be_value b * 256 + x.
Proof. unfold be_value. rewrite fold_left_app. reflexivity. Qed.

Lemma be_value_be_bytes (n : nat) (v : Z) :
  0 <= v -> be_value (be_bytes n v) = v mod 256 ^ Z.of_nat n.
Proof.
  revert v. induction n as [|n IH]; intros v Hv.
  - simpl. rewrite Z.mod_1_r. reflexivity.
  - cbn [be_bytes]. rewrite be_value_app, IH by (apply Z.div_pos; lia).
    rewrite Nat2Z.inj_succ, Z.pow_succ_r by lia.
    rewrite Z.rem_mul_r by lia. lia.
Qed.

Lemma Uint64_roundtrip (v : Z) :
  is_uint64 v -> BytesToUint64 (Uint64ToBytes v) = Some v.
Proof.
  intros [Hlo Hhi]. unfold BytesToUint64, Uint64ToBytes.
  rewrite be_bytes_length. simpl (8 <? 8)%nat. cbv iota.
  rewrite firstn_all2 by (rewrite be_bytes_length; lia).
  rewrite be_value_be_bytes by lia.
  rewrite Z.mod_small; [reflexivity|]. unfold two64 in Hhi. simpl Z.of_nat. lia.
Qed.

Lemma BytesTo20B_id (b : bytes) : length b = 20%nat -> BytesTo20B b = b.
Proof.
  intros Hlen. unfold BytesTo20B.
  rewrite take_app_le by lia. apply firstn_all2. lia.
Qed.

(** ** Strings *)

Lemma has_votee_true (votee self : string) :
  has_votee votee self = true <-> votee <> "" /\ votee <> self.
Proof.
  unfold has_votee. rewrite andb_true_iff, negb_true_iff, String.eqb_neq.
  rewrite Nat.ltb_lt. destruct votee; simpl; split; intros [H1 H2]; split;
    try done; lia.
Qed.

(** ** The candidate order *)

Lemma ltb_asym (s1 s2 : string) :
  String.ltb s1 s2 = true -> String.ltb s2 s1 = false.
Proof.
  unfold String.ltb. rewrite (String.compare_antisym s2 s1).
  destruct (String.compare s1 s2); simpl; congruence.
Qed.

Lemma Less_asym (a b : Candidate.t) : Less a b = true -> Less b a = false.
Proof.
  unfold Less. rewrite (Z.eqb_sym (Candidate.Votes b)).
  rewrite (Z.eqb_sym (Candidate.CreationHeight b)).
  destruct (Z.eqb_spec (Candidate.Votes a) (Candidate.Votes b));
    [destruct (Z.eqb_spec (Candidate.CreationHeight a) (Candidate.CreationHeight b))|].
  - apply ltb_asym.
  - rewrite !Z.ltb_lt, Z.ltb_ge. lia.
  - rewrite !Z.ltb_lt, Z.ltb_ge. lia.
Qed.

Lemma ltb_lt (s1 s2 : string) :
  String.ltb s1 s2 = true <-> String_as_OT.lt s1 s2.
Proof.
  unfold String.ltb, String_as_OT.lt.
  change (String_as_OT.compare s1 s2) with (String.compare s1 s2).
  destruct (String.compare s1 s2); split; congruence.
Qed.

Lemma ltb_trans (s1 s2 s3 : string) :
  String.ltb s1 s2 = true -> String.ltb s2 s3 = true -> String.ltb s1 s3 = true.
Proof.
  rewrite !ltb_lt. apply (StrictOrder_Transitive (R := String_as_OT.lt)).
Qed.

Lemma ltb_trichotomy (s1 s2 : string) :
  String.ltb s1 s2 = false -> String.ltb s2 s1 = false -> s1 = s2.
Proof.
  unfold String.ltb. rewrite (String.compare_antisym s2 s1).
  destruct (String.compare s1 s2) eqn:E; simpl; intros H1 H2;
    try discriminate H1; try discriminate H2.
  by apply String.compare_eq_iff.
Qed.

Lemma Less_spec (a b : Candidate.t) :
  Less a b = true <->
  Candidate.Votes b < Candidate.Votes a \/
  (Candidate.Votes a = Candidate.Votes b /\
   (Candidate.CreationHeight a < Candidate.CreationHeight b \/
    (Candidate.CreationHeight a = Candidate.CreationHeight b /\
     String.ltb (Candidate.Address a) (Candidate.Address b) = true))).
Proof.
  unfold Less.
  destruct (Z.eqb_spec (Candidate.Votes a) (Candidate.Votes b)) as [HV|HV].
  - destruct (Z.eqb_spec (Candidate.CreationHeight a) (Candidate.CreationHeight b))
      as [HC|HC].
    + intuition lia.
    + rewrite Z.ltb_lt. intuition lia.
  - rewrite Z.ltb_lt. intuition lia.
Qed.

#[global] Instance cand_le_trans : Transitive cand_le.
Proof.
  intros a b c Hab Hbc. unfold cand_le in *.
  destruct (Less c a) eqn:Hca; [exfalso|reflexivity].
  apply Less_spec in Hca.
  apply not_true_iff_false in Hab, Hbc. rewrite Less_spec in Hab, Hbc.
  destruct (String.ltb (Candidate.Address c) (Candidate.Address b)) eqn:Hcb.
  - intuition lia.
  - destruct (String.ltb (Candidate.Address b) (Candidate.Address a)) eqn:Hba.
    + intuition lia.
    + destruct (String.ltb (Candidate.Address b) (Candidate.Address c)) eqn:Hbc'.
      * destruct (String.ltb (Candidate.Address c) (Candidate.Address a)) eqn:Hca'.
        -- pose proof (ltb_trans _ _ _ Hbc' Hca'). intuition (try lia; congruence).
        -- intuition (try lia; congruence).
      * pose proof (ltb_trichotomy _ _ Hcb Hbc') as Heq. rewrite Heq in *.
        intuition (try lia; congruence).
Qed.

Lemma cand_le_antisym_Address (a b : Candidate.t) :
  cand_le a b -> cand_le b a -> Candidate.Address a = Candidate.Address b.
Proof.
  unfold cand_le. intros Hab Hba.
  apply not_true_iff_false in Hab, Hba. rewrite Less_spec in Hab, Hba.
  destruct (String.ltb (Candidate.Address a) (Candidate.Address b)) eqn:E1.
  - exfalso. intuition lia.
  - destruct (String.ltb (Candidate.Address b) (Candidate.Address a)) eqn:E2.
    + exfalso. intuition lia.
    + by apply ltb_trichotomy.
Qed.

#[global] Instance cand_le_total : Total cand_le.
Proof.
  intros a b. unfold cand_le.
  destruct (Less b a) eqn:E; [right; by apply Less_asym|by left].
Qed.

Lemma sortCandidates_Sorted (l : list Candidate.t) : Sorted cand_le (sortCandidates l).
Proof. apply (Sorted_merge_sort cand_le). Qed.

Lemma sortCandidates_Permutation (l : list Candidate.t) : sortCandidates l ≡ₚ l.
Proof. apply (merge_sort_Permutation cand_le). Qed.

Lemma pool_keyed_elem (pool : gmap string Candidate.t) (c : Candidate.t) :
  c ∈ snd <$> map_to_list pool -> pool !! Candidate.Address c = Some c \/
  exists k, k <> Candidate.Address c /\ pool !! k = Some c.
Proof.
  intros Hin. apply list_elem_of_fmap in Hin as ([k c'] & -> & Hin).
  apply elem_of_map_to_list in Hin. simpl.
  destruct (decide (k = Candidate.Address c')) as [->|Hne]; [by left|right; eauto].
Qed.

(** The sorted arrangement of a pool keyed by address is unique: whatever
    order the pool is listed in and whatever algorithm sorts it, the result
    is [sortCandidates] of the pool. *)
Lemma sorted_pool_unique (pool : gmap string Candidate.t) (l listed : list Candidate.t) :
  pool_keyed pool ->
  listed ≡ₚ snd <$> map_to_list pool ->
  Sorted cand_le l -> l ≡ₚ listed ->
  l = sortCandidates listed.
Proof.
  intros Hkeyed Hlisted HS HP.
  apply (Sorted_unique_strong cand_le); [|done|apply sortCandidates_Sorted|].
  - intros x y Hx Hy Hxy Hyx.
    rewrite HP, Hlisted in Hx. rewrite sortCandidates_Permutation, Hlisted in Hy.
    pose proof (cand_le_antisym_Address _ _ Hxy Hyx) as Haddr.
    destruct (pool_keyed_elem _ _ Hx) as [Hpx|(k & Hk & Hpx)];
      [|by apply Hkeyed in Hpx].
    destruct (pool_keyed_elem _ _ Hy) as [Hpy|(k & Hk & Hpy)];
      [|by apply Hkeyed in Hpy].
    rewrite Haddr in Hpx. congruence.
  - by rewrite sortCandidates_Permutation.
Qed.

Section FactoryProperties.
Context {T K C : Type}.
Context `{!Trie T, !KVStore K, !ContractStore C T K, !Codec, !AddressCodec}.
Context `{!RangeOrder}.

Abbreviation factory := (factory T K C).
Abbreviation M := (M T K C).
Abbreviation same_store := (@same_store T K C).
Abbreviation same_pool := (@same_pool T K C).
Abbreviation keyed_step := (@keyed_step T K C).

Notation "'let*' x ':=' c 'in' k" := (bind c (fun x => k))
  (at level 10, x name, c at level 100, k at level 200).

(** ** The monad *)

Lemma bind_Ret {A B} (m : M A) (k : A -> M B) sf a sf1 :
  m sf = (Ret a, sf1) -> bind m k sf = k a sf1.
Proof. intros E. unfold bind. rewrite E. reflexivity. Qed.

Lemma bind_Fail {A B} (m : M A) (k : A -> M B) sf e sf1 :
  m sf = (Fail e, sf1) -> bind m k sf = (Fail e, sf1).
Proof. intros E. unfold bind. rewrite E. reflexivity. Qed.

Lemma bind_Ret_inv {A B} (m : M A) (k : A -> M B) sf b sf' :
  bind m k sf = (Ret b, sf') ->
  exists a sf1, m sf = (Ret a, sf1) /\ k a sf1 = (Ret b, sf').
Proof.
  unfold bind. destruct (m sf) as [[a|e|] sf1]; intros E; try discriminate.
  eauto.
Qed.

Lemma wrapErr_Ret_inv {A} msg (m : M A) sf a sf' :
  wrapErr msg m sf = (Ret a, sf') -> m sf = (Ret a, sf').
Proof.
  unfold wrapErr. destruct (m sf) as [[a'|e|] sf1]; intros E; try discriminate.
  exact E.
Qed.

Lemma liftE_Ret_inv err (sf sf' : factory) :
  liftE err sf = (Ret tt, sf') -> err = None /\ sf' = sf.
Proof. destruct err; simpl; intros E; [discriminate|]. by injection E as <-. Qed.

(** ** What a method leaves alone *)

Lemma keeps_ret {A} (R : relation factory) `{!Reflexive R} (a : A) : keeps R (ret a).
Proof. intros sf. simpl. reflexivity. Qed.

Lemma keeps_fail {A} (R : relation factory) `{!Reflexive R} e : keeps R (@fail _ _ _ A e).
Proof. intros sf. simpl. reflexivity. Qed.

Lemma keeps_bind {A B} (R : relation factory) `{!Transitive R}
    (m : M A) (k : A -> M B) :
  keeps R m -> (forall a, keeps R (k a)) -> keeps R (bind m k).
Proof.
  intros Hm Hk sf. unfold bind. specialize (Hm sf).
  destruct (m sf) as [[a|e|] sf1]; simpl in *; try exact Hm.
  etransitivity; [exact Hm|apply Hk].
Qed.

Lemma keeps_forM_ {A} (R : relation factory) `{!Reflexive R, !Transitive R}
    (body : A -> M unit) (l : list A) :
  (forall x, keeps R (body x)) -> keeps R (forM_ body l).
Proof.
  intros Hbody. induction l as [|x l IH]; simpl.
  - by apply keeps_ret.
  - apply keeps_bind; [done|apply Hbody|intros _; exact IH].
Qed.

#[local] Instance same_store_refl : Reflexive same_store.
Proof. by intros sf. Qed.

#[local] Instance same_store_trans : Transitive same_store.
Proof. intros a b c (?&?&?) (?&?&?). repeat split; congruence. Qed.

Lemma same_store_cachedAccount m sf : same_store sf (set_cachedAccount m sf).
Proof. by repeat split. Qed.

Lemma same_store_cachedCandidates m sf : same_store sf (set_cachedCandidates m sf).
Proof. by repeat split. Qed.

Lemma LoadOrCreateState_store addr init : keeps same_store (LoadOrCreateState addr init).
Proof.
  intros sf. unfold LoadOrCreateState.
  destruct (GetPubkeyHash addr); [|done].
  destruct (cachedAccount sf !! addr); [done|].
  destruct (getState sf _); [by apply same_store_cachedAccount|].
  case_decide; [by apply same_store_cachedAccount|done].
Qed.

Lemma deref_store addr : keeps same_store (deref addr).
Proof. intros sf. unfold deref. by destruct (cachedAccount sf !! addr). Qed.

Lemma update_store addr f : keeps same_store (update addr f).
Proof.
  intros sf. unfold update.
  destruct (cachedAccount sf !! addr); [by apply same_store_cachedAccount|done].
Qed.

Lemma liftR_store {A} (r : result A) : keeps same_store (liftR r).
Proof. destruct r; [by apply keeps_ret|by apply keeps_fail]. Qed.

Lemma updateR_store addr f : keeps same_store (updateR addr f).
Proof.
  unfold updateR. apply keeps_bind; [apply _|apply deref_store|intros s].
  apply keeps_bind; [apply _|apply liftR_store|intros s'].
  apply update_store.
Qed.

Ltac keeps_store :=
  repeat first
    [ match goal with |- keeps _ (if ?b then _ else _) => destruct b end
    | apply LoadOrCreateState_store | apply updateR_store
    | apply update_store | apply deref_store
    | by apply keeps_ret | by apply keeps_fail
    | apply keeps_bind; [apply _| |intros ?] ].

Lemma handleTsf_tx_store tx : keeps same_store (handleTsf_tx tx).
Proof. unfold handleTsf_tx, debitSender, creditRecipient. keeps_store. Qed.

Lemma handleTsf_store tsf : keeps same_store (handleTsf tsf).
Proof. apply keeps_forM_; [apply _..|apply handleTsf_tx_store]. Qed.

Lemma recoverCandidates_store h : keeps same_store (recoverCandidates h).
Proof.
  intros sf. unfold recoverCandidates.
  destruct (_ && _); [|done].
  destruct (getCandidates sf (h - 1)); [|done].
  simpl. by apply same_store_cachedCandidates.
Qed.

(** ** A failing transfer aborts the commit before any write *)

Lemma forM__app {A} (body : A -> M unit) (l1 l2 : list A) sf sf1 :
  forM_ body l1 sf = (Ret tt, sf1) ->
  forM_ body (l1 ++ l2) sf = forM_ body l2 sf1.
Proof.
  revert sf. induction l1 as [|x l1 IH]; intros sf; simpl.
  - by intros [= <-].
  - intros E. apply bind_Ret_inv in E as (u & sf2 & E1 & E2).
    rewrite (bind_Ret _ _ _ _ _ E1). by apply IH.
Qed.

Lemma same_store_reads (sf sf' : factory) :
  same_store sf sf' ->
  RootHash sf' = RootHash sf /\ Height sf' = Height sf /\
  (forall a, State sf' a = State sf a) /\
  (forall h, getCandidates sf' h = getCandidates sf h).
Proof.
  intros (Ha & Hc & Hdb). unfold RootHash, Height, State, getState, getCandidates.
  rewrite Ha, Hc, Hdb. done.
Qed.

(** C4.  If a transfer of the block fails with [ErrNotEnoughBalance] (the
    transfers before it having been applied), [CommitStateChanges] returns
    that error and has written nothing: the account trie, the candidate trie
    and the KV store are the ones of before the call, so the root hash, the
    persisted height, every committed account record and every archived
    candidate list read as before. *)
Theorem CommitStateChanges_overdraw_writes_nothing
    blockHeight pre tx post vote executions (sf sf0 sf1 : factory) :
  recoverCandidates blockHeight sf = (Ret tt, sf0) ->
  handleTsf pre sf0 = (Ret tt, sf1) ->
  fst (handleTsf_tx tx sf1) = Fail ErrNotEnoughBalance ->
  let r := CommitStateChanges blockHeight (pre ++ tx :: post) vote executions sf in
  fst r = Fail ErrNotEnoughBalance /\
  accountTrie (snd r) = accountTrie sf /\
  candidateTrie (snd r) = candidateTrie sf /\
  trieDB (snd r) = trieDB sf /\
  RootHash (snd r) = RootHash sf /\
  Height (snd r) = Height sf /\
  (forall a, State (snd r) a = State sf a) /\
  (forall h, getCandidates (snd r) h = getCandidates sf h).
Proof.
  intros Hrec Hpre Htx r.
  assert (Hr : r = (Fail ErrNotEnoughBalance, snd (handleTsf_tx tx sf1))).
  { subst r. unfold CommitStateChanges.
    rewrite (bind_Ret _ _ _ _ _ Hrec).
    destruct (handleTsf_tx tx sf1) as [o sf2] eqn:E. simpl in Htx. subst o.
    erewrite bind_Fail; [reflexivity|].
    unfold handleTsf. rewrite (forM__app _ _ _ _ _ Hpre). simpl.
    by rewrite (bind_Fail _ _ _ _ _ E). }
  assert (Hst : same_store sf (snd r)).
  { rewrite Hr. simpl.
    transitivity sf0.
    { pose proof (recoverCandidates_store blockHeight sf) as Hk.
      by rewrite Hrec in Hk. }
    transitivity sf1.
    { pose proof (handleTsf_store pre sf0) as Hk. by rewrite Hpre in Hk. }
    apply handleTsf_tx_store. }
  split; [by rewrite Hr|].
  destruct (same_store_reads _ _ Hst) as (? & ? & ? & ?).
  destruct Hst as (? & ? & ?). done.
Qed.

(** ** The end of a successful commit *)

Lemma trieDB_Put_Ret ns key value (sf sf' : factory) :
  trieDB_Put ns key value sf = (Ret tt, sf') ->
  exists db, kv_Put (trieDB sf) ns key value = (None, db) /\
  sf' = set_trieDB db sf.
Proof.
  unfold trieDB_Put. destruct (kv_Put _ _ _ _) as [err db] eqn:E.
  intros Hl. apply liftE_Ret_inv in Hl as [-> ->]. eauto.
Qed.

Lemma root_key_ne_height_key :
  (AccountKVNameSpace, string_to_bytes AccountTrieRootKey)
  <> (AccountKVNameSpace, string_to_bytes CurrentHeightKey).
Proof. vm_compute. discriminate. Qed.

Lemma root_key_ne_candidate_key :
  (AccountKVNameSpace, string_to_bytes AccountTrieRootKey)
  <> (CandidateKVNameSpace, string_to_bytes CandidateTrieRootKey).
Proof. vm_compute. discriminate. Qed.

Lemma candidate_key_ne_height_key :
  (CandidateKVNameSpace, string_to_bytes CandidateTrieRootKey)
  <> (AccountKVNameSpace, string_to_bytes CurrentHeightKey).
Proof. vm_compute. discriminate. Qed.

Lemma persistRoots_Ret h (sf sf' : factory) :
  persistRoots h sf = (Ret tt, sf') ->
  accountTrie sf' = accountTrie sf /\
  candidateTrie sf' = candidateTrie sf /\
  cachedCandidates sf' = cachedCandidates sf /\
  currentChainHeight sf' = h /\
  kv_Get (trieDB sf') AccountKVNameSpace (string_to_bytes AccountTrieRootKey)
    = Ok (RootHash sf) /\
  kv_Get (trieDB sf') CandidateKVNameSpace (string_to_bytes CandidateTrieRootKey)
    = Ok (trie_RootHash (candidateTrie sf)) /\
  kv_Get (trieDB sf') AccountKVNameSpace (string_to_bytes CurrentHeightKey)
    = Ok (Uint64ToBytes h).
Proof.
  unfold persistRoots. intros E.
  apply bind_Ret_inv in E as (root & s1 & E1 & E).
  injection E1 as <- <-.
  apply bind_Ret_inv in E as ([] & s2 & E2 & E).
  apply wrapErr_Ret_inv, trieDB_Put_Ret in E2 as (db2 & P2 & ->).
  apply bind_Ret_inv in E as (croot & s3 & E3 & E).
  injection E3 as <- <-.
  apply bind_Ret_inv in E as ([] & s4 & E4 & E).
  apply wrapErr_Ret_inv, trieDB_Put_Ret in E4 as (db4 & P4 & ->).
  apply bind_Ret_inv in E as ([] & s5 & E5 & E).
  injection E5 as <-.
  apply trieDB_Put_Ret in E as (db6 & P6 & ->).
  simpl in *. repeat split.
  - rewrite (kv_Get_Put_ne _ _ _ _ _ _ _ P6 root_key_ne_height_key).
    rewrite (kv_Get_Put_ne _ _ _ _ _ _ _ P4 root_key_ne_candidate_key).
    apply (kv_Get_Put_eq _ _ _ _ _ P2).
  - rewrite (kv_Get_Put_ne _ _ _ _ _ _ _ P6 candidate_key_ne_height_key).
    apply (kv_Get_Put_eq _ _ _ _ _ P4).
  - apply (kv_Get_Put_eq _ _ _ _ _ P6).
Qed.

Lemma persistCandidates_Ret h (sf sf' : factory) :
  persistCandidates h sf = (Ret tt, sf') ->
  accountTrie sf' = accountTrie sf /\
  cachedCandidates sf' = cachedCandidates sf /\
  numCandidates sf' = numCandidates sf /\
  exists candidatesBytes,
    Serialize (sortCandidates (snd <$> range (cachedCandidates sf)))
      = Ok candidatesBytes /\
    trie_Get (candidateTrie sf') (Uint64ToBytes h) = Ok candidatesBytes.
Proof.
  unfold persistCandidates. intros E.
  apply bind_Ret_inv in E as (l & s1 & E1 & E).
  apply wrapErr_Ret_inv in E1. simpl in E1. injection E1 as <- <-.
  apply bind_Ret_inv in E as (bs & s2 & E2 & E).
  apply wrapErr_Ret_inv in E2.
  destruct (Serialize _) as [bs'|] eqn:ES; simpl in E2; [|discriminate].
  injection E2 as <- <-.
  apply bind_Ret_inv in E as ([] & s3 & E3 & E).
  apply wrapErr_Ret_inv in E3.
  destruct (trie_Upsert _ _ _) as [err tr] eqn:EU.
  apply liftE_Ret_inv in E3 as [-> ->].
  apply wrapErr_Ret_inv in E.
  destruct (trie_Commit _) as [err tr'] eqn:EC.
  apply liftE_Ret_inv in E as [-> ->].
  simpl in *. repeat split. exists bs'. split; [done|].
  rewrite (trie_Get_Commit _ _ _ EC). apply (trie_Get_Upsert _ _ _ _ EU).
Qed.

Lemma CommitStateChanges_Ret blockHeight tsf vote executions (sf sf' : factory) :
  CommitStateChanges blockHeight tsf vote executions sf = (Ret tt, sf') ->
  exists sf1 sf2,
    persistCandidates blockHeight sf1 = (Ret tt, sf2) /\
    persistRoots blockHeight sf2 = (Ret tt, sf').
Proof.
  unfold CommitStateChanges. intros E.
  do 7 (apply bind_Ret_inv in E as ([] & ? & _ & E)).
  apply bind_Ret_inv in E as ([] & sf1 & E1 & E).
  eauto.
Qed.

Lemma CommitStateChanges_Height blockHeight tsf vote executions (sf sf' : factory) :
  is_uint64 blockHeight ->
  CommitStateChanges blockHeight tsf vote executions sf = (Ret tt, sf') ->
  Height sf' = Ret blockHeight /\ currentChainHeight sf' = blockHeight.
Proof.
  intros Hh E. apply CommitStateChanges_Ret in E as (sf1 & sf2 & _ & E).
  apply persistRoots_Ret in E as (_ & _ & _ & Hcur & _ & _ & Hkv).
  split; [|done]. unfold Height. rewrite Hkv.
  by rewrite Uint64_roundtrip.
Qed.

(** C3.  After a successful [CommitStateChanges] at a block height (a
    [uint64]), the value stored in the KV store under the account-trie root
    key is [RootHash()], a 32-byte value, and [Height()] returns the block
    height, read back from the height key. *)
Theorem CommitStateChanges_persists_root_and_height
    blockHeight tsf vote executions (sf sf' : factory) :
  is_uint64 blockHeight ->
  CommitStateChanges blockHeight tsf vote executions sf = (Ret tt, sf') ->
  kv_Get (trieDB sf') AccountKVNameSpace (string_to_bytes AccountTrieRootKey)
    = Ok (RootHash sf') /\
  length (RootHash sf') = 32%nat /\
  kv_Get (trieDB sf') AccountKVNameSpace (string_to_bytes CurrentHeightKey)
    = Ok (Uint64ToBytes blockHeight) /\
  Height sf' = Ret blockHeight.
Proof.
  intros Hh E.
  destruct (CommitStateChanges_Height _ _ _ _ _ _ Hh E) as [HH _].
  apply CommitStateChanges_Ret in E as (sf1 & sf2 & _ & E).
  apply persistRoots_Ret in E as (Hat & _ & _ & _ & Hroot & _ & Hkv).
  repeat split; try done.
  - rewrite Hroot. unfold RootHash. by rewrite Hat.
  - apply trie_RootHash_length.
Qed.

(** C5 (as the code has it).  The height a successful commit persists is
    the block height it was given, whatever height was persisted before:
    over two successful commits in a row, at [h1] then [h2], [Height()] and
    the in-memory chain height read [h1] and then [h2].  The step is the
    caller's: it is one exactly when the caller passes [h2 = h1 + 1]. *)
Theorem CommitStateChanges_height_is_the_argument
    h1 h2 tsf1 vote1 exec1 tsf2 vote2 exec2 (sf sf1 sf2 : factory) :
  is_uint64 h1 -> is_uint64 h2 ->
  CommitStateChanges h1 tsf1 vote1 exec1 sf = (Ret tt, sf1) ->
  CommitStateChanges h2 tsf2 vote2 exec2 sf1 = (Ret tt, sf2) ->
  Height sf1 = Ret h1 /\ currentChainHeight sf1 = h1 /\
  Height sf2 = Ret h2 /\ currentChainHeight sf2 = h2 /\
  (h2 = h1 + 1 -> Height sf2 = Ret (h1 + 1)).
Proof.
  intros U1 U2 E1 E2.
  destruct (CommitStateChanges_Height _ _ _ _ _ _ U1 E1) as [? ?].
  destruct (CommitStateChanges_Height _ _ _ _ _ _ U2 E2) as [? ?].
  repeat split; try done. by intros <-.
Qed.

(** C7 (as the code has it).  In a successful commit the value stored in
    the candidate trie under the 8-byte big-endian block height is the
    serialization of the whole live pool, sorted by the candidate order and
    not truncated: the list has one entry per candidate of the pool, however
    many [numCandidates] allows ([CandidatesByHeight] truncates on reading). *)
Theorem CommitStateChanges_archives_whole_sorted_pool
    blockHeight tsf vote executions (sf sf' : factory) :
  CommitStateChanges blockHeight tsf vote executions sf = (Ret tt, sf') ->
  exists (archived : list Candidate.t) (candidatesBytes : bytes),
    archived = sortCandidates (snd <$> range (cachedCandidates sf')) /\
    Serialize archived = Ok candidatesBytes /\
    trie_Get (candidateTrie sf') (Uint64ToBytes blockHeight) = Ok candidatesBytes /\
    Sorted cand_le archived /\
    archived ≡ₚ snd <$> map_to_list (cachedCandidates sf') /\
    length archived = size (cachedCandidates sf').
Proof.
  intros E. apply CommitStateChanges_Ret in E as (sf1 & sf2 & E1 & E2).
  apply persistCandidates_Ret in E1 as (_ & Hpool & _ & bs & HS & HG).
  apply persistRoots_Ret in E2 as (_ & Hct & Hpool' & _).
  rewrite Hpool', Hpool, Hct.
  eexists _, bs. split; [reflexivity|]. split; [exact HS|]. split; [exact HG|].
  split; [apply sortCandidates_Sorted|].
  assert (HP : sortCandidates (snd <$> range (cachedCandidates sf1))
               ≡ₚ snd <$> map_to_list (cachedCandidates sf1)).
  { rewrite sortCandidates_Permutation. by rewrite range_perm. }
  split; [exact HP|].
  rewrite HP, length_fmap. apply length_map_to_list.
Qed.

(** ** Unknown addresses *)

Lemma getState_absent (sf : factory) hash err :
  trie_Get (accountTrie sf) hash = Err err -> Cause err = TrieErrNotExist ->
  getState sf hash = Err (ErrWrap ErrAccountNotExist "addrHash").
Proof.
  intros E Hc. unfold getState. rewrite E. by rewrite decide_True.
Qed.

(** C8 (as the code has it).  For an address that is in neither cache nor
    in the account trie, [LoadOrCreateState] does not return the
    account-not-found error: it allocates a record with the given balance
    (nonce 0, zero voting weight, empty votee), puts it in the cache and
    returns it.  [CachedState] allocates nothing: with no contract handle
    cached for the address, it returns the account-not-found error and leaves
    the factory as it was, and so does [State]. *)
Theorem absent_address_LoadOrCreateState_creates_CachedState_fails
    addr init pkHash err (sf : factory) :
  GetPubkeyHash addr = Ok pkHash ->
  cachedAccount sf !! addr = None ->
  trie_Get (accountTrie sf) (BytesTo20B pkHash) = Err err ->
  Cause err = TrieErrNotExist ->
  (exists state sf',
     LoadOrCreateState addr init sf = (Ret state, sf') /\
     cachedAccount sf' = <[addr := state]> (cachedAccount sf) /\
     State.Balance state = init /\ State.Nonce state = 0 /\
     State.VotingWeight state = 0 /\ State.Votee state = "" /\
     State.IsCandidate state = false) /\
  (cachedContract sf !! BytesTo20B pkHash = None ->
   exists e, CachedState addr sf = (Fail e, sf) /\ Cause e = ErrAccountNotExist) /\
  (exists e, State sf addr = Err e /\ Cause e = ErrAccountNotExist).
Proof.
  intros Hpk Hcache Htrie Hcause.
  pose proof (getState_absent _ _ _ Htrie Hcause) as Hget.
  repeat split.
  - exists (newState init). eexists. unfold LoadOrCreateState.
    rewrite Hpk, Hcache, Hget. simpl.
    repeat split; reflexivity.
  - intros Hcontract. eexists. unfold CachedState, getContract.
    rewrite Hpk, Hcontract, Hget, Hcache, Hget. split; reflexivity.
  - eexists. unfold State. rewrite Hpk, Hget. split; reflexivity.
Qed.

(** ** Execution nonces *)

Lemma putState_Ret state addr (sf sf' : factory) :
  putState state addr sf = (Ret tt, sf') ->
  exists ss tr,
    stateToBytes state = Ok ss /\
    trie_Upsert (accountTrie sf) addr ss = (None, tr) /\
    sf' = set_accountTrie tr sf.
Proof.
  unfold putState. intros E. apply bind_Ret_inv in E as (ss & s1 & E1 & E).
  destruct (stateToBytes state) as [ss'|]; simpl in E1; [|discriminate].
  injection E1 as <- <-.
  destruct (trie_Upsert _ _ _) as [err tr] eqn:EU.
  apply liftE_Ret_inv in E as [-> ->]. eauto.
Qed.

(** For an address that decodes, the key the execution loop reads the
    account under is the key it writes it under. *)
Lemma pubkeyHash_or_nil_20B address pkHash :
  GetPubkeyHash address = Ok pkHash ->
  pubkeyHash_or_nil address = pkHash /\
  BytesTo20B (pubkeyHash_or_nil address) = pubkeyHash_or_nil address.
Proof.
  intros Hpk. unfold pubkeyHash_or_nil. rewrite Hpk. split; [done|].
  apply BytesTo20B_id. by apply (GetPubkeyHash_length address).
Qed.

Lemma bumpNonce_Nonce e state :
  State.Nonce (bumpNonce e state)
  = Z.max (wrap64 (State.Nonce state + 1)) (Execution.Nonce e).
Proof.
  unfold bumpNonce. simpl.
  destruct (Z.gtb_spec (Execution.Nonce e) (wrap64 (State.Nonce state + 1))); simpl; lia.
Qed.

Lemma bumpNonce_rest e state :
  State.Balance (bumpNonce e state) = State.Balance state /\
  State.VotingWeight (bumpNonce e state) = State.VotingWeight state /\
  State.Votee (bumpNonce e state) = State.Votee state /\
  State.IsCandidate (bumpNonce e state) = State.IsCandidate state /\
  State.Root (bumpNonce e state) = State.Root state /\
  State.CodeHash (bumpNonce e state) = State.CodeHash state.
Proof. unfold bumpNonce. by destruct (_ >? _). Qed.

(** C9.  An execution that [CommitStateChanges] processes turns the record
    [pre] of its executor (the cached one, else the one in the account trie)
    into a record [post] that it writes to the account trie (and to the cache
    when the executor is cached), where the nonce of [post] is the nonce of
    [pre] incremented by one as a [uint64] and then raised to the maximum of
    that and the nonce of the execution; nothing else of the record changes.
    When the nonce of the execution is the nonce of [pre] plus one, the nonce
    of [post] is the nonce of [pre] plus one. *)
Theorem commitExecution_increments_then_maxes e (sf sf' : factory) :
  commitExecution e sf = (Ret tt, sf') ->
  exists pre post ss,
    (cachedAccount sf !! Execution.Executor e = Some pre /\
     cachedAccount sf' = <[Execution.Executor e := post]> (cachedAccount sf)
     \/
     cachedAccount sf !! Execution.Executor e = None /\
     getState sf (BytesTo20B (pubkeyHash_or_nil (Execution.Executor e))) = Ok pre /\
     cachedAccount sf' = cachedAccount sf) /\
    stateToBytes post = Ok ss /\
    trie_Get (accountTrie sf') (pubkeyHash_or_nil (Execution.Executor e)) = Ok ss /\
    State.Nonce post
      = Z.max (wrap64 (State.Nonce pre + 1)) (Execution.Nonce e) /\
    (0 <= State.Nonce pre -> State.Nonce pre + 1 < two64 ->
     State.Nonce post = Z.max (State.Nonce pre + 1) (Execution.Nonce e)) /\
    (is_uint64 (Execution.Nonce e) ->
     Execution.Nonce e = State.Nonce pre + 1 ->
     State.Nonce post = State.Nonce pre + 1) /\
    State.Balance post = State.Balance pre /\
    State.VotingWeight post = State.VotingWeight pre /\
    State.Votee post = State.Votee pre /\
    State.IsCandidate post = State.IsCandidate pre.
Proof.
  unfold commitExecution. intros E.
  assert (Hfin : forall pre ss,
    stateToBytes (bumpNonce e pre) = Ok ss ->
    trie_Get (accountTrie sf') (pubkeyHash_or_nil (Execution.Executor e)) = Ok ss ->
    stateToBytes (bumpNonce e pre) = Ok ss /\
    trie_Get (accountTrie sf') (pubkeyHash_or_nil (Execution.Executor e)) = Ok ss /\
    State.Nonce (bumpNonce e pre)
      = Z.max (wrap64 (State.Nonce pre + 1)) (Execution.Nonce e) /\
    (0 <= State.Nonce pre -> State.Nonce pre + 1 < two64 ->
     State.Nonce (bumpNonce e pre)
       = Z.max (State.Nonce pre + 1) (Execution.Nonce e)) /\
    (is_uint64 (Execution.Nonce e) ->
     Execution.Nonce e = State.Nonce pre + 1 ->
     State.Nonce (bumpNonce e pre) = State.Nonce pre + 1) /\
    State.Balance (bumpNonce e pre) = State.Balance pre /\
    State.VotingWeight (bumpNonce e pre) = State.VotingWeight pre /\
    State.Votee (bumpNonce e pre) = State.Votee pre /\
    State.IsCandidate (bumpNonce e pre) = State.IsCandidate pre).
  { intros pre ss Hss Hget.
    destruct (bumpNonce_rest e pre) as (? & ? & ? & ? & _).
    rewrite bumpNonce_Nonce. unfold wrap64, is_uint64.
    repeat split; try done.
    - intros ? ?. rewrite Z.mod_small by lia. done.
    - intros [? ?] Heq. rewrite Z.mod_small by lia. lia. }
  destruct (cachedAccount sf !! Execution.Executor e) as [pre|] eqn:Hc.
  - apply putState_Ret in E as (ss & tr & Hss & Hup & ->).
    exists pre, (bumpNonce e pre), ss. split; [left; done|].
    apply Hfin; [done|]. simpl. apply (trie_Get_Upsert _ _ _ _ Hup).
  - destruct (getState sf _) as [pre|] eqn:Hg; [|discriminate].
    apply putState_Ret in E as (ss & tr & Hss & Hup & ->).
    exists pre, (bumpNonce e pre), ss. split; [right; done|].
    apply Hfin; [done|]. simpl. apply (trie_Get_Upsert _ _ _ _ Hup).
Qed.

(** ** The record an applier works on *)

Lemma factory_eta (sf : factory) : set_cachedAccount (cachedAccount sf) sf = sf.
Proof. by destruct sf. Qed.

Lemma viewState_valid (sf : factory) a s :
  viewState sf a = Some s -> exists pkHash, GetPubkeyHash a = Ok pkHash.
Proof. unfold viewState. destruct (GetPubkeyHash a); [eauto|discriminate]. Qed.

Lemma viewState_insert m (sf : factory) a s b :
  is_Some (viewState (set_cachedAccount m sf) a) ->
  viewState (set_cachedAccount (<[a := s]> m) sf) b
  = if decide (b = a) then Some s else viewState (set_cachedAccount m sf) b.
Proof.
  intros [s0 Hv]. apply viewState_valid in Hv as [pk Hpk].
  unfold viewState. simpl. case_decide as Hb.
  - subst b. by rewrite Hpk, lookup_insert_eq.
  - by rewrite lookup_insert_ne.
Qed.

Lemma LoadOrCreateState_view m (sf : factory) a s :
  viewState (set_cachedAccount m sf) a = Some s ->
  LoadOrCreateState a 0 (set_cachedAccount m sf)
  = (Ret s, set_cachedAccount (<[a := s]> m) sf).
Proof.
  unfold viewState, LoadOrCreateState. destruct (GetPubkeyHash a); [|discriminate].
  simpl. destruct (m !! a) as [s'|] eqn:Hm.
  - intros [= ->]. by rewrite insert_id.
  - destruct (getState _ _).
    + by intros [= ->].
    + case_decide; [|discriminate]. by intros [= <-].
Qed.

Lemma deref_view m (sf : factory) a s :
  m !! a = Some s ->
  deref a (set_cachedAccount m sf) = (Ret s, set_cachedAccount m sf).
Proof. intros Hm. unfold deref. simpl. by rewrite Hm. Qed.

Lemma update_view m (sf : factory) a f s :
  m !! a = Some s ->
  update a f (set_cachedAccount m sf)
  = (Ret tt, set_cachedAccount (<[a := f s]> m) sf).
Proof. intros Hm. unfold update. simpl. by rewrite Hm. Qed.

Lemma updateR_view m (sf : factory) a f s s' :
  m !! a = Some s -> f s = Ok s' ->
  updateR a f (set_cachedAccount m sf)
  = (Ret tt, set_cachedAccount (<[a := s']> m) sf).
Proof.
  intros Hm Hf. unfold updateR.
  rewrite (bind_Ret _ _ _ _ _ (deref_view _ _ _ _ Hm)).
  rewrite Hf. simpl. unfold bind. simpl.
  exact (update_view m sf a (fun _ => s') s Hm).
Qed.

(** ** Transfers *)

Lemma set_Nonce_max n s :
  (if n >? State.Nonce s then State.set_Nonce n s else s)
  = State.set_Nonce (Z.max (State.Nonce s) n) s.
Proof.
  destruct s as [nonce ? ? ? ? ? ?]. unfold State.set_Nonce. simpl.
  destruct (Z.gtb_spec n nonce); f_equal; lia.
Qed.

Lemma credited_Votee tx votee a s :
  State.Votee (credited tx votee a s) = State.Votee s.
Proof. unfold credited. repeat case_decide; by destruct (_ && _). Qed.

Lemma debited_Votee tx votee a s :
  State.Votee (debited tx votee a s) = State.Votee s.
Proof. unfold debited. repeat case_decide; by destruct (_ && _). Qed.

(** Case analysis on the address comparisons of a goal about views. *)
Ltac view_cases :=
  repeat match goal with
  | H : viewState ?s ?a = Some _ |- context [viewState ?s ?a] => rewrite H
  | |- context [decide ?P] => destruct (decide P); simplify_eq
  | |- context [bool_decide ?P] => destruct (bool_decide_reflect P); simplify_eq
  end;
  simpl; try done;
  repeat match goal with
  | |- context [viewState ?s ?a] => destruct (viewState s a)
  end;
  simpl; try done.

Lemma creditRecipient_view tx m (sf : factory) recipient :
  viewState (set_cachedAccount m sf) (Transfer.Recipient tx) = Some recipient ->
  (has_votee (State.Votee recipient) (Transfer.Recipient tx) = true ->
   is_Some (viewState (set_cachedAccount m sf) (State.Votee recipient))) ->
  exists m',
    creditRecipient tx (set_cachedAccount m sf) = (Ret tt, set_cachedAccount m' sf) /\
    forall b, viewState (set_cachedAccount m' sf) b
              = credited tx (State.Votee recipient) b
                  <$> viewState (set_cachedAccount m sf) b.
Proof.
  intros HR Hvotee. unfold creditRecipient, credited.
  generalize dependent (Transfer.Recipient tx). intros R HR Hvotee.
  generalize (Transfer.Amount tx). intros amt.
  rewrite (bind_Ret _ _ _ _ _ (LoadOrCreateState_view _ _ _ _ HR)).
  pose proof (fun b => viewState_insert m sf R recipient b (mk_is_Some _ _ HR)) as V1.
  set (m1 := <[R := recipient]> m) in *.
  set (r1 := State.set_Balance (State.Balance recipient + amt) recipient).
  assert (Hm1 : m1 !! R = Some recipient) by apply lookup_insert_eq.
  rewrite (bind_Ret _ _ _ _ _
             (updateR_view m1 sf R (AddBalance amt) recipient r1 Hm1 eq_refl)).
  assert (HR1 : is_Some (viewState (set_cachedAccount m1 sf) R)).
  { rewrite V1, decide_True by done. eauto. }
  pose proof (fun b => viewState_insert m1 sf R r1 b HR1) as V2.
  set (m2 := <[R := r1]> m1) in *.
  assert (Hm2 : m2 !! R = Some r1) by apply lookup_insert_eq.
  rewrite (bind_Ret _ _ _ _ _ (deref_view m2 sf R r1 Hm2)).
  change (State.Votee r1) with (State.Votee recipient).
  generalize dependent (State.Votee recipient). intros vR Hvotee.
  destruct (has_votee vR R) eqn:Hhas.
  - destruct (Hvotee eq_refl) as [w Hw].
    apply has_votee_true in Hhas as Hne. destruct Hne as [_ Hne].
    assert (Hw2 : viewState (set_cachedAccount m2 sf) vR = Some w).
    { rewrite V2, decide_False, V1, decide_False by done. exact Hw. }
    rewrite (bind_Ret _ _ _ _ _ (LoadOrCreateState_view _ _ _ _ Hw2)).
    pose proof (fun b => viewState_insert m2 sf vR w b (mk_is_Some _ _ Hw2)) as V3.
    set (m3 := <[vR := w]> m2) in *.
    assert (Hm3 : m3 !! vR = Some w) by apply lookup_insert_eq.
    rewrite (update_view m3 sf vR _ w Hm3).
    eexists. split; [reflexivity|].
    intros b. rewrite viewState_insert by (rewrite V3, decide_True by done; eauto).
    rewrite V3, V2, V1, andb_true_r. clear -HR Hw Hne. view_cases.
  - eexists. split; [reflexivity|].
    intros b. rewrite V2, V1, andb_false_r. clear -HR. view_cases.
Qed.

Lemma debitSender_overdraw tx m (sf : factory) sender :
  viewState (set_cachedAccount m sf) (Transfer.Sender tx) = Some sender ->
  Transfer.Amount tx > State.Balance sender ->
  debitSender tx (set_cachedAccount m sf)
  = (Fail ErrNotEnoughBalance,
     set_cachedAccount (<[Transfer.Sender tx := sender]> m) sf).
Proof.
  intros HS Hgt. unfold debitSender.
  rewrite (bind_Ret _ _ _ _ _ (LoadOrCreateState_view _ _ _ _ HS)).
  destruct (Z.gtb_spec (Transfer.Amount tx) (State.Balance sender)); [done|lia].
Qed.

Lemma debitSender_view tx m (sf : factory) sender :
  viewState (set_cachedAccount m sf) (Transfer.Sender tx) = Some sender ->
  Transfer.Amount tx <= State.Balance sender ->
  (has_votee (State.Votee sender) (Transfer.Sender tx) = true ->
   is_Some (viewState (set_cachedAccount m sf) (State.Votee sender))) ->
  exists m',
    debitSender tx (set_cachedAccount m sf) = (Ret tt, set_cachedAccount m' sf) /\
    forall b, viewState (set_cachedAccount m' sf) b
              = debited tx (State.Votee sender) b
                  <$> viewState (set_cachedAccount m sf) b.
Proof.
  intros HS Hle Hvotee. unfold debitSender, debited.
  generalize dependent (Transfer.Sender tx). intros S HS Hvotee.
  generalize dependent (Transfer.Amount tx). intros amt Hle.
  generalize (Transfer.Nonce tx). intros n.
  rewrite (bind_Ret _ _ _ _ _ (LoadOrCreateState_view _ _ _ _ HS)).
  pose proof (fun b => viewState_insert m sf S sender b (mk_is_Some _ _ HS)) as V1.
  set (m1 := <[S := sender]> m) in *.
  destruct (Z.gtb_spec amt (State.Balance sender)) as [|_]; [lia|].
  set (s1 := State.set_Balance (State.Balance sender - amt) sender).
  assert (Hm1 : m1 !! S = Some sender) by apply lookup_insert_eq.
  assert (Hsub : SubBalance amt sender = Ok s1).
  { unfold SubBalance.
    destruct (Z.gtb_spec amt (State.Balance sender)); [lia|done]. }
  rewrite (bind_Ret _ _ _ _ _ (updateR_view m1 sf S _ sender s1 Hm1 Hsub)).
  assert (HS1 : is_Some (viewState (set_cachedAccount m1 sf) S)).
  { rewrite V1, decide_True by done. eauto. }
  pose proof (fun b => viewState_insert m1 sf S s1 b HS1) as V2.
  set (m2 := <[S := s1]> m1) in *.
  assert (Hm2 : m2 !! S = Some s1) by apply lookup_insert_eq.
  rewrite (bind_Ret _ _ _ _ _ (deref_view m2 sf S s1 Hm2)).
  set (s2 := State.set_Nonce (Z.max (State.Nonce sender) n) s1).
  assert (Hnonce : exists m3,
    (if n >? State.Nonce s1 then update S (State.set_Nonce n) else ret tt)
      (set_cachedAccount m2 sf) = (Ret tt, set_cachedAccount m3 sf) /\
    m3 !! S = Some s2 /\
    forall b, viewState (set_cachedAccount m3 sf) b
              = if decide (b = S) then Some s2
                else viewState (set_cachedAccount m sf) b).
  { pose proof (set_Nonce_max n s1) as Hmax.
    change (State.Nonce s1) with (State.Nonce sender) in *. fold s2 in Hmax.
    destruct (n >? State.Nonce sender).
    - exists (<[S := s2]> m2). rewrite <- Hmax.
      split; [by apply update_view|]. split; [apply lookup_insert_eq|].
      intros b. rewrite viewState_insert
        by (rewrite V2, decide_True by done; eauto).
      rewrite V2, V1. by repeat case_decide.
    - exists m2. rewrite <- Hmax. split; [done|]. split; [done|].
      intros b. rewrite V2, V1. by repeat case_decide. }
  destruct Hnonce as (m3 & E3 & Hm3 & V3).
  rewrite (bind_Ret _ _ _ _ _ E3).
  rewrite (bind_Ret _ _ _ _ _ (deref_view m3 sf S s2 Hm3)).
  change (State.Votee s2) with (State.Votee sender).
  generalize dependent (State.Votee sender). intros vS Hvotee.
  destruct (has_votee vS S) eqn:Hhas.
  - destruct (Hvotee eq_refl) as [w Hw].
    apply has_votee_true in Hhas as Hne. destruct Hne as [_ Hne].
    assert (Hw3 : viewState (set_cachedAccount m3 sf) vS = Some w).
    { rewrite V3, decide_False by done. exact Hw. }
    rewrite (bind_Ret _ _ _ _ _ (LoadOrCreateState_view _ _ _ _ Hw3)).
    pose proof (fun b => viewState_insert m3 sf vS w b (mk_is_Some _ _ Hw3)) as V4.
    set (m4 := <[vS := w]> m3) in *.
    assert (Hm4 : m4 !! vS = Some w) by apply lookup_insert_eq.
    rewrite (update_view m4 sf vS _ w Hm4).
    eexists. split; [reflexivity|].
    intros b. rewrite viewState_insert by (rewrite V4, decide_True by done; eauto).
    rewrite V4, V3, andb_true_r. subst s2 s1. clear -HS Hw Hne. view_cases.
  - eexists. split; [reflexivity|].
    intros b. rewrite V3, andb_false_r. subst s2 s1. clear -HS. view_cases.
Qed.

Lemma handleTsf_tx_view tx m (sf : factory) sender recipient :
  Transfer.IsContract tx = false -> Transfer.IsCoinbase tx = false ->
  viewState (set_cachedAccount m sf) (Transfer.Sender tx) = Some sender ->
  Transfer.Amount tx <= State.Balance sender ->
  viewState (set_cachedAccount m sf) (Transfer.Recipient tx) = Some recipient ->
  (has_votee (State.Votee sender) (Transfer.Sender tx) = true ->
   is_Some (viewState (set_cachedAccount m sf) (State.Votee sender))) ->
  (has_votee (State.Votee recipient) (Transfer.Recipient tx) = true ->
   is_Some (viewState (set_cachedAccount m sf) (State.Votee recipient))) ->
  exists m',
    handleTsf_tx tx (set_cachedAccount m sf) = (Ret tt, set_cachedAccount m' sf) /\
    forall a, viewState (set_cachedAccount m' sf) a
              = (fun s => credited tx (State.Votee recipient) a
                            (debited tx (State.Votee sender) a s))
                  <$> viewState (set_cachedAccount m sf) a.
Proof.
  intros Hc Hcb HS Hle HR HvS HvR. unfold handleTsf_tx. rewrite Hc, Hcb. simpl.
  destruct (debitSender_view tx m sf sender HS Hle HvS) as (m1 & E1 & V1).
  rewrite (bind_Ret _ _ _ _ _ E1).
  assert (HR1 : viewState (set_cachedAccount m1 sf) (Transfer.Recipient tx)
                = Some (debited tx (State.Votee sender) (Transfer.Recipient tx) recipient)).
  { by rewrite V1, HR. }
  destruct (creditRecipient_view tx m1 sf _ HR1) as (m2 & E2 & V2).
  { rewrite debited_Votee. intros Hhas. rewrite V1.
    destruct (HvR Hhas) as [w ->]. simpl. eauto. }
  exists m2. split; [exact E2|].
  intros a. rewrite V2, V1, debited_Votee. by destruct (viewState _ a).
Qed.

(** C1.  [handleTsf] skips a transfer that is a contract call.  For a
    transfer that is neither a contract call nor a coinbase, whose sender
    record is [sender]: if the amount is greater than the balance of
    [sender], the application fails with [ErrNotEnoughBalance]; otherwise
    (the records involved being loadable) it succeeds, and every record is
    then the one of before, [debited] and then [credited]: the balance of
    the sender minus the amount, its nonce the maximum of its nonce and the
    nonce of the transfer, the voting weight of the votee of the sender minus
    the amount when that votee is not empty and not the sender, the balance
    of the recipient plus the amount, and the voting weight of the votee of
    the recipient plus the amount when that votee is not empty and not the
    recipient.  Nothing else changes: the tries, the KV store and the
    candidate pool are as before. *)
Theorem handleTsf_tx_applies_transfer tx (sf : factory) :
  (Transfer.IsContract tx = true -> handleTsf_tx tx sf = (Ret tt, sf)) /\
  (Transfer.IsContract tx = false -> Transfer.IsCoinbase tx = false ->
   forall sender,
     viewState sf (Transfer.Sender tx) = Some sender ->
     (Transfer.Amount tx > State.Balance sender ->
      fst (handleTsf_tx tx sf) = Fail ErrNotEnoughBalance) /\
     (Transfer.Amount tx <= State.Balance sender ->
      forall recipient,
        viewState sf (Transfer.Recipient tx) = Some recipient ->
        (has_votee (State.Votee sender) (Transfer.Sender tx) = true ->
         is_Some (viewState sf (State.Votee sender))) ->
        (has_votee (State.Votee recipient) (Transfer.Recipient tx) = true ->
         is_Some (viewState sf (State.Votee recipient))) ->
        exists sf',
          handleTsf_tx tx sf = (Ret tt, sf') /\
          (forall a,
             viewState sf' a
             = (fun s => credited tx (State.Votee recipient) a
                           (debited tx (State.Votee sender) a s))
                 <$> viewState sf a) /\
          cachedCandidates sf' = cachedCandidates sf /\
          same_store sf sf')).
Proof.
  split.
  - intros Hc. unfold handleTsf_tx. by rewrite Hc.
  - intros Hc Hcb sender HS. split.
    + intros Hgt. rewrite <- (factory_eta sf) in HS |- *.
      unfold handleTsf_tx. rewrite Hc, Hcb. simpl.
      by rewrite (bind_Fail _ _ _ _ _ (debitSender_overdraw tx _ sf sender HS Hgt)).
    + intros Hle recipient HR HvS HvR.
      pose proof (handleTsf_tx_view tx (cachedAccount sf) sf sender recipient) as L.
      rewrite factory_eta in L.
      destruct (L Hc Hcb HS Hle HR HvS HvR) as (m' & E & V).
      eexists. split; [exact E|]. split; [exact V|]. split; [done|].
      apply same_store_cachedAccount.
Qed.

(** ** Votes *)

Lemma viewState_cachedCandidates p (sf : factory) a :
  viewState (set_cachedCandidates p sf) a = viewState sf a.
Proof. reflexivity. Qed.

Lemma viewState_lookup m (sf : factory) a s :
  is_Some (viewState (set_cachedAccount m sf) a) -> m !! a = Some s ->
  viewState (set_cachedAccount m sf) a = Some s.
Proof.
  intros [s0 Hv] Hm. apply viewState_valid in Hv as [pk Hpk].
  unfold viewState. simpl. by rewrite Hpk, Hm.
Qed.

Lemma loadVoter_view v m (sf : factory) voter :
  viewState (set_cachedAccount m sf) (Vote.VoterAddress v) = Some voter ->
  exists m',
    loadVoter v (set_cachedAccount m sf) = (Ret tt, set_cachedAccount m' sf) /\
    m' !! Vote.VoterAddress v = Some (vote_nonced v (Vote.VoterAddress v) voter) /\
    forall b, viewState (set_cachedAccount m' sf) b
              = vote_nonced v b <$> viewState (set_cachedAccount m sf) b.
Proof.
  intros HV. unfold loadVoter, vote_nonced.
  generalize dependent (Vote.VoterAddress v). intros V HV.
  generalize (Vote.Nonce v). intros n.
  rewrite (bind_Ret _ _ _ _ _ (LoadOrCreateState_view _ _ _ _ HV)).
  pose proof (fun b => viewState_insert m sf V voter b (mk_is_Some _ _ HV)) as V1.
  set (m1 := <[V := voter]> m) in *.
  assert (Hm1 : m1 !! V = Some voter) by apply lookup_insert_eq.
  pose proof (set_Nonce_max n voter) as Hmax.
  rewrite decide_True by done.
  destruct (n >? State.Nonce voter).
  - rewrite (update_view m1 sf V _ voter Hm1). rewrite Hmax.
    eexists. split; [reflexivity|]. split; [apply lookup_insert_eq|].
    intros b. rewrite viewState_insert by (rewrite V1, decide_True by done; eauto).
    rewrite V1. clear -HV. view_cases.
  - exists m1. rewrite <- Hmax. split; [done|]. split; [done|].
    intros b. rewrite V1. clear -HV Hmax. view_cases. by rewrite <- Hmax.
Qed.

Lemma revokeVote_view v m (sf : factory) voter :
  m !! Vote.VoterAddress v = Some voter ->
  is_Some (viewState (set_cachedAccount m sf) (Vote.VoterAddress v)) ->
  (has_votee (State.Votee voter) (Vote.VoterAddress v) = true ->
   is_Some (viewState (set_cachedAccount m sf) (State.Votee voter))) ->
  exists m',
    revokeVote v (set_cachedAccount m sf) = (Ret tt, set_cachedAccount m' sf) /\
    m' !! Vote.VoterAddress v
      = Some (vote_revoked v (State.Votee voter) (State.Balance voter)
                (Vote.VoterAddress v) voter) /\
    forall b, viewState (set_cachedAccount m' sf) b
              = vote_revoked v (State.Votee voter) (State.Balance voter) b
                  <$> viewState (set_cachedAccount m sf) b.
Proof.
  intros Hm HV Hold. unfold revokeVote, vote_revoked.
  pose proof (viewState_lookup _ _ _ _ HV Hm) as HVv.
  generalize dependent (Vote.VoterAddress v). intros V Hm HV Hold HVv.
  rewrite (bind_Ret _ _ _ _ _ (deref_view m sf V voter Hm)).
  remember (State.Votee voter) as old eqn:Eold.
  remember (State.Balance voter) as bal eqn:Ebal.
  destruct (has_votee old V) eqn:Hhas.
  - destruct (Hold eq_refl) as [w Hw].
    apply has_votee_true in Hhas as Hne. destruct Hne as [_ Hne].
    rewrite (bind_Ret _ _ _ _ _ (LoadOrCreateState_view _ _ _ _ Hw)).
    pose proof (fun b => viewState_insert m sf old w b (mk_is_Some _ _ Hw)) as V1.
    set (m1 := <[old := w]> m) in *.
    assert (Hm1 : m1 !! V = Some voter) by (subst m1; by rewrite lookup_insert_ne).
    assert (Hm1' : m1 !! old = Some w) by apply lookup_insert_eq.
    rewrite (bind_Ret _ _ _ _ _ (deref_view m1 sf V voter Hm1)).
    rewrite <- Eold, <- Ebal.
    rewrite (bind_Ret _ _ _ _ _ (update_view m1 sf old _ w Hm1')).
    set (w' := State.set_VotingWeight (State.VotingWeight w - bal) w) in *.
    pose proof (fun b => viewState_insert m1 sf old w' b
      (ltac:(rewrite V1, decide_True by done; eauto))) as V2.
    set (m2 := <[old := w']> m1) in *.
    assert (Hm2 : m2 !! V = Some voter) by (subst m2; by rewrite lookup_insert_ne).
    rewrite (update_view m2 sf V _ voter Hm2).
    eexists. split; [reflexivity|].
    split; [rewrite lookup_insert_eq; repeat case_decide; congruence|].
    intros b. rewrite viewState_insert
      by (rewrite V2, decide_False, V1, decide_False by done; done).
    rewrite V2, V1. subst w'. clear -HVv Hw Hne. view_cases.
  - exists m. split; [done|]. split; [done|].
    intros b. by destruct (viewState _ b).
Qed.

Lemma set_cachedCandidates_eta m (sf : factory) :
  set_cachedCandidates (cachedCandidates sf) (set_cachedAccount m sf)
  = set_cachedAccount m sf.
Proof. by destruct sf. Qed.

Lemma castVote_view blockHeight v m (sf : factory) voter :
  m !! Vote.VoterAddress v = Some voter ->
  is_Some (viewState (set_cachedAccount m sf) (Vote.VoterAddress v)) ->
  (Vote.VoteeAddress v <> "" ->
   is_Some (viewState (set_cachedAccount m sf) (Vote.VoteeAddress v))) ->
  exists m',
    castVote blockHeight v (set_cachedAccount m sf)
    = (Ret tt,
       set_cachedCandidates (pool_voted blockHeight v (cachedCandidates sf))
         (set_cachedAccount m' sf)) /\
    forall b, viewState (set_cachedAccount m' sf) b
              = vote_cast v (State.Balance voter) b
                  <$> viewState (set_cachedAccount m sf) b.
Proof.
  intros Hm HV HT. unfold castVote, vote_cast, pool_voted.
  pose proof (viewState_lookup _ _ _ _ HV Hm) as HVv.
  generalize (Vote.SelfPubkey v). intros pk.
  generalize dependent (Vote.VoteeAddress v). intros U HT.
  generalize dependent (Vote.VoterAddress v). intros V Hm HV HVv.
  pose proof (fun s b => viewState_insert m sf V s b HV) as V0.
  destruct (String.eqb_spec U "") as [->|HU].
  - (* unvote *)
    eexists. split.
    { rewrite decide_False by (by intros [? _]). rewrite set_cachedCandidates_eta.
      rewrite (update_view m sf V _ voter Hm). reflexivity. }
    intros b. rewrite V0. clear -HVv. view_cases.
  - destruct (HT HU) as [w Hw].
    rewrite (bind_Ret _ _ _ _ _ (LoadOrCreateState_view _ _ _ _ Hw)).
    pose proof (fun b => viewState_insert m sf U w b (mk_is_Some _ _ Hw)) as V1.
    set (m1 := <[U := w]> m) in *.
    assert (Hm1' : m1 !! U = Some w) by apply lookup_insert_eq.
    destruct (String.eqb_spec V U) as [<-|HVU]; simpl.
    + (* self-vote *)
      assert (w = voter) as -> by congruence.
      rewrite (bind_Ret _ _ _ _ _ (update_view m1 sf V _ voter Hm1')).
      set (s2 := State.set_Votee V voter).
      pose proof (fun b => viewState_insert m1 sf V s2 b
        (ltac:(rewrite V1, decide_True by done; eauto))) as V2.
      set (m2 := <[V := s2]> m1) in *.
      assert (Hm2 : m2 !! V = Some s2) by apply lookup_insert_eq.
      rewrite (bind_Ret _ _ _ _ _ (update_view m2 sf V _ s2 Hm2)).
      set (s3 := State.set_IsCandidate true s2).
      pose proof (fun b => viewState_insert m2 sf V s3 b
        (ltac:(rewrite V2, decide_True by done; eauto))) as V3.
      set (m3 := <[V := s3]> m2) in *.
      exists m3. split.
      * rewrite decide_True by done. simpl.
        destruct (cachedCandidates sf !! V); [|reflexivity].
        by rewrite set_cachedCandidates_eta.
      * intros b. rewrite V3, V2, V1. subst s3 s2. clear -HVv HU. view_cases.
    + (* vote for another address *)
      assert (Hm1 : m1 !! V = Some voter) by (subst m1; by rewrite lookup_insert_ne).
      rewrite (bind_Ret _ _ _ _ _ (deref_view m1 sf V voter Hm1)).
      rewrite (bind_Ret _ _ _ _ _ (update_view m1 sf U _ w Hm1')).
      set (w' := State.set_VotingWeight (State.VotingWeight w + State.Balance voter) w)
        in *.
      pose proof (fun b => viewState_insert m1 sf U w' b
        (ltac:(rewrite V1, decide_True by done; eauto))) as V2.
      set (m2 := <[U := w']> m1) in *.
      assert (Hm2 : m2 !! V = Some voter) by (subst m2; by rewrite lookup_insert_ne).
      rewrite (update_view m2 sf V _ voter Hm2).
      eexists. split.
      { rewrite decide_False by (by intros [_ ?]).
        rewrite set_cachedCandidates_eta. reflexivity. }
      intros b. rewrite viewState_insert
        by (rewrite V2, decide_False, V1, decide_False by done; done).
      rewrite V2, V1. subst w'. clear -HVv Hw HU HVU. view_cases.
Qed.

(** C2.  Applying a vote whose voter record is [voter] (the records
    involved being loadable) succeeds, and every record is then the one of
    before with the three steps of the code applied in order.  The nonce
    of the voter becomes the maximum of its nonce and the nonce of the vote
    ([vote_nonced]).  When the previous votee of the voter is not empty and
    not the voter, that votee loses the whole balance of the voter in voting
    weight and the votee of the voter is cleared ([vote_revoked]).  Then
    ([vote_cast]) an empty votee address sets [IsCandidate] of the voter to
    false; a votee address other than the voter gains the balance of the
    voter in voting weight and becomes the votee of the voter, whose
    [IsCandidate] is left as it is; a votee address equal to the voter makes
    the voter its own votee with [IsCandidate] true, and the candidate pool
    gets a new record for the voter, created at the block height, exactly
    when the voter is not in the pool yet ([pool_voted]).  The tries and
    the KV store are as before. *)
Theorem handleVote_v_applies_vote blockHeight v (sf : factory) voter :
  viewState sf (Vote.VoterAddress v) = Some voter ->
  (has_votee (State.Votee voter) (Vote.VoterAddress v) = true ->
   is_Some (viewState sf (State.Votee voter))) ->
  (Vote.VoteeAddress v <> "" -> is_Some (viewState sf (Vote.VoteeAddress v))) ->
  exists sf',
    handleVote_v blockHeight v sf = (Ret tt, sf') /\
    (forall a,
       viewState sf' a
       = (fun s =>
            vote_cast v (State.Balance voter) a
              (vote_revoked v (State.Votee voter) (State.Balance voter) a
                 (vote_nonced v a s)))
           <$> viewState sf a) /\
    cachedCandidates sf' = pool_voted blockHeight v (cachedCandidates sf) /\
    (Vote.VoteeAddress v <> "" -> Vote.VoterAddress v = Vote.VoteeAddress v ->
     cachedCandidates sf !! Vote.VoterAddress v = None ->
     cachedCandidates sf' !! Vote.VoterAddress v
     = Some (Candidate.mk (Vote.VoterAddress v) (Vote.SelfPubkey v) 0 blockHeight 0)) /\
    same_store sf sf'.
Proof.
  intros HV Hold HT. rewrite <- (factory_eta sf) in HV, Hold, HT.
  unfold handleVote_v.
  destruct (loadVoter_view v _ sf voter HV) as (m1 & E1 & Hm1 & V1).
  assert (Hvoter1 : State.Votee (vote_nonced v (Vote.VoterAddress v) voter)
                    = State.Votee voter
                    /\ State.Balance (vote_nonced v (Vote.VoterAddress v) voter)
                       = State.Balance voter).
  { unfold vote_nonced. by case_decide. }
  destruct Hvoter1 as [Hvotee1 Hbal1].
  destruct (revokeVote_view v m1 sf _ Hm1) as (m2 & E2 & Hm2 & V2).
  { rewrite V1, HV. simpl. eauto. }
  { rewrite Hvotee1. intros Hhas. rewrite V1.
    destruct (Hold Hhas) as [w ->]. simpl. eauto. }
  rewrite Hvotee1, Hbal1 in Hm2, V2.
  assert (Hbal2 : State.Balance
                    (vote_revoked v (State.Votee voter) (State.Balance voter)
                       (Vote.VoterAddress v)
                       (vote_nonced v (Vote.VoterAddress v) voter))
                  = State.Balance voter).
  { unfold vote_revoked, vote_nonced.
    destruct (has_votee _ _); repeat case_decide; done. }
  destruct (castVote_view blockHeight v m2 sf _ Hm2) as (m3 & E3 & V3).
  { rewrite V2, V1, HV. simpl. eauto. }
  { intros HU. rewrite V2, V1. destruct (HT HU) as [w ->]. simpl. eauto. }
  rewrite Hbal2 in V3.
  eexists. split.
  { rewrite <- (factory_eta sf) at 1.
    rewrite (bind_Ret _ _ _ _ _ E1), (bind_Ret _ _ _ _ _ E2). exact E3. }
  split.
  { intros a. rewrite viewState_cachedCandidates, V3, V2, V1.
    rewrite <- (factory_eta sf) at 3. by destruct (viewState _ a). }
  split; [reflexivity|].
  split; [|by repeat split].
  intros HU HVU Hpool. simpl. unfold pool_voted.
  rewrite decide_True by done. rewrite Hpool. apply lookup_insert_eq.
Qed.

(** ** Nonces under the appliers *)

Lemma transfer_nonce_le tx vS vR a s :
  State.Nonce s <= State.Nonce (credited tx vR a (debited tx vS a s)).
Proof.
  unfold credited, debited.
  repeat match goal with
  | |- context [decide ?P] => destruct (decide P)
  | |- context [bool_decide ?P && ?b] => destruct (bool_decide P && b)
  end; simpl; lia.
Qed.

Lemma vote_nonce_le v old bal a s :
  State.Nonce s
  <= State.Nonce (vote_cast v bal a (vote_revoked v old bal a (vote_nonced v a s))).
Proof.
  unfold vote_cast, vote_revoked, vote_nonced.
  destruct (has_votee old (Vote.VoterAddress v));
    repeat match goal with
    | |- context [decide ?P] => destruct (decide P)
    end; simpl; lia.
Qed.

(** The increment of the execution loop keeps the nonce from decreasing as
    long as it does not wrap. *)
Lemma bumpNonce_nonce_le e s :
  0 <= State.Nonce s -> State.Nonce s + 1 < two64 ->
  State.Nonce s <= State.Nonce (bumpNonce e s).
Proof.
  intros Hlo Hhi. rewrite bumpNonce_Nonce. unfold wrap64.
  rewrite Z.mod_small by lia. lia.
Qed.

(** ** The candidate list *)

Lemma Sorted_take {A} (R : relation A) (l : list A) (n : nat) :
  Sorted R l -> Sorted R (take n l).
Proof.
  intros HS. revert n. induction HS as [|x l HS IH Hhd]; intros [|n]; simpl;
    try constructor.
  - apply IH.
  - destruct Hhd as [|y l' Hxy]; destruct n; simpl; constructor. exact Hxy.
Qed.

Lemma Candidates_length (sf : factory) h l :
  is_uint64 (numCandidates sf) ->
  Candidates sf = Some (h, l) ->
  Z.of_nat (length l) <= numCandidates sf.
Proof.
  intros [Hlo Hhi]. unfold Candidates, MapToCandidates, uint_to_int.
  destruct (Z.leb_spec (Z.of_nat (length (snd <$> range (cachedCandidates sf))))
              (if numCandidates sf <? 2 ^ 63 then numCandidates sf
               else numCandidates sf - two64)) as [Hle|Hgt].
  - intros [= <- <-]. destruct (Z.ltb_spec (numCandidates sf) (2 ^ 63)); lia.
  - destruct (_ <=? _); [|discriminate]. intros [= <- <-].
    rewrite length_take. lia.
Qed.

Lemma Candidates_truncated (sf : factory) h l :
  numCandidates sf < Z.of_nat (size (cachedCandidates sf)) ->
  0 <= numCandidates sf ->
  Candidates sf = Some (h, l) ->
  l = take (Z.to_nat (numCandidates sf))
        (sortCandidates (snd <$> range (cachedCandidates sf))) /\
  Sorted cand_le l.
Proof.
  intros Hlt Hnn. unfold Candidates, MapToCandidates, uint_to_int.
  assert (Hlen : length (snd <$> range (cachedCandidates sf))
                 = size (cachedCandidates sf)).
  { rewrite length_fmap, range_perm. apply length_map_to_list. }
  rewrite Hlen.
  destruct (Z.leb_spec (Z.of_nat (size (cachedCandidates sf)))
              (if numCandidates sf <? 2 ^ 63 then numCandidates sf
               else numCandidates sf - two64)) as [Hle|Hgt].
  - destruct (Z.ltb_spec (numCandidates sf) (2 ^ 63)); unfold two64 in *; lia.
  - destruct (_ <=? _); [|discriminate]. intros [= <- <-].
    split; [reflexivity|]. apply Sorted_take, sortCandidates_Sorted.
Qed.

(** ** The pool stays keyed by address *)

#[local] Instance same_pool_refl : Reflexive same_pool.
Proof. by intros sf. Qed.
#[local] Instance same_pool_trans : Transitive same_pool.
Proof. unfold same_pool. intros a b c ? ?. congruence. Qed.
#[local] Instance keyed_step_refl : Reflexive keyed_step.
Proof. intros sf Hk. exact Hk. Qed.
#[local] Instance keyed_step_trans : Transitive keyed_step.
Proof. unfold keyed_step. intros a b c ? ?. auto. Qed.

Lemma same_pool_keyed (sf sf' : factory) : same_pool sf sf' -> keyed_step sf sf'.
Proof. unfold same_pool, keyed_step. by intros ->. Qed.

Lemma keeps_weaken {A} (R R' : relation factory) (m : M A) :
  (forall sf sf', R sf sf' -> R' sf sf') -> keeps R m -> keeps R' m.
Proof. intros Himp Hm sf. apply Himp, Hm. Qed.

Lemma keeps_wrapErr {A} (R : relation factory) msg (m : M A) :
  keeps R m -> keeps R (wrapErr msg m).
Proof.
  intros Hm sf. specialize (Hm sf). unfold wrapErr.
  by destruct (m sf) as [[?|?|] ?].
Qed.

(** A method given by cases on the factory, each case changing fields other
    than the pool. *)
Ltac keeps_by_cases :=
  intros ?; simpl;
  repeat match goal with
  | |- context [match ?x with _ => _ end] => destruct x
  end;
  simpl; try done.

Lemma LoadOrCreateState_pool addr init : keeps same_pool (LoadOrCreateState addr init).
Proof. unfold LoadOrCreateState. keeps_by_cases. Qed.

Lemma deref_pool addr : keeps same_pool (deref addr).
Proof. unfold deref. keeps_by_cases. Qed.

Lemma update_pool addr f : keeps same_pool (update addr f).
Proof. unfold update. keeps_by_cases. Qed.

Lemma liftR_pool {A} (r : result A) : keeps same_pool (liftR r).
Proof. destruct r; [by apply keeps_ret|by apply keeps_fail]. Qed.

Lemma updateR_pool addr f : keeps same_pool (updateR addr f).
Proof.
  unfold updateR. apply keeps_bind; [apply _|apply deref_pool|intros s].
  apply keeps_bind; [apply _|apply liftR_pool|intros s'].
  apply update_pool.
Qed.

Lemma putState_pool state addr : keeps same_pool (putState state addr).
Proof.
  unfold putState. apply keeps_bind; [apply _|apply liftR_pool|intros ss].
  unfold liftE. keeps_by_cases.
Qed.

Ltac keeps_pool :=
  repeat first
    [ match goal with |- keeps _ (if ?b then _ else _) => destruct b end
    | apply LoadOrCreateState_pool | apply updateR_pool
    | apply update_pool | apply deref_pool | apply putState_pool
    | by apply keeps_ret | by apply keeps_fail
    | apply keeps_bind; [apply _| |intros ?] ].

Lemma handleTsf_pool tsf : keeps same_pool (handleTsf tsf).
Proof.
  apply keeps_forM_; [apply _..|intros tx].
  unfold handleTsf_tx, debitSender, creditRecipient. keeps_pool.
Qed.

Lemma pool_keyed_insert pool k c :
  Candidate.Address c = k -> pool_keyed pool -> pool_keyed (<[k := c]> pool).
Proof.
  intros Hc Hp k' c'. rewrite lookup_insert. case_decide; [|apply Hp].
  by intros [= <-]; subst.
Qed.

Lemma pool_keyed_delete pool k : pool_keyed pool -> pool_keyed (delete k pool).
Proof.
  intros Hp k' c'. rewrite lookup_delete. case_decide; [done|apply Hp].
Qed.

Lemma CandidatesToMap_keyed candidates m :
  CandidatesToMap candidates = Ok m -> pool_keyed m.
Proof.
  unfold CandidatesToMap. intros [= <-].
  assert (Hgen : forall acc, pool_keyed acc ->
            pool_keyed (fold_left
              (fun m cand => <[Candidate.Address cand := cand]> m) candidates acc)).
  { induction candidates as [|c l IH]; intros acc Hacc; simpl; [done|].
    apply IH. by apply pool_keyed_insert. }
  apply Hgen. intros k c. by rewrite lookup_empty.
Qed.

Lemma handleVote_keyed blockHeight vote : keeps keyed_step (handleVote blockHeight vote).
Proof.
  apply keeps_forM_; [apply _..|intros v].
  unfold handleVote_v.
  apply keeps_bind; [apply _| |intros _].
  { apply (keeps_weaken same_pool); [apply same_pool_keyed|].
    unfold loadVoter. keeps_pool. }
  apply keeps_bind; [apply _| |intros _].
  { apply (keeps_weaken same_pool); [apply same_pool_keyed|].
    unfold revokeVote. keeps_pool. }
  unfold castVote.
  destruct (String.eqb _ _).
  { apply (keeps_weaken same_pool); [apply same_pool_keyed|].
    apply update_pool. }
  apply keeps_bind; [apply _| |intros _].
  { apply (keeps_weaken same_pool); [apply same_pool_keyed|].
    apply LoadOrCreateState_pool. }
  destruct (negb _).
  { apply (keeps_weaken same_pool); [apply same_pool_keyed|].
    keeps_pool. }
  apply keeps_bind; [apply _| |intros _].
  { apply (keeps_weaken same_pool); [apply same_pool_keyed|].
    apply update_pool. }
  apply keeps_bind; [apply _| |intros _].
  { apply (keeps_weaken same_pool); [apply same_pool_keyed|].
    apply update_pool. }
  intros sf. destruct (cachedCandidates sf !! _); simpl; [done|].
  intros Hk. by apply pool_keyed_insert.
Qed.

Lemma commitAccount_keyed blockHeight entry :
  keeps keyed_step (commitAccount blockHeight entry).
Proof.
  destruct entry as [address state]. unfold commitAccount.
  apply keeps_bind; [apply _| |intros _].
  { apply (keeps_weaken same_pool); [apply same_pool_keyed|].
    apply putState_pool. }
  destruct (negb _).
  - intros sf Hk. simpl. by apply pool_keyed_delete.
  - intros sf Hk. unfold updateCandidate.
    destruct (cachedCandidates sf !! address) as [c|] eqn:Hc; simpl; [|done].
    apply pool_keyed_insert; [|done]. simpl. by apply Hk.
Qed.

Lemma CommitStateChanges_keyed blockHeight tsf vote executions :
  keeps keyed_step (CommitStateChanges blockHeight tsf vote executions).
Proof.
  assert (Hw : forall A (m : M A), keeps same_pool m -> keeps keyed_step m).
  { intros A m. apply keeps_weaken, same_pool_keyed. }
  unfold CommitStateChanges.
  apply keeps_bind; [apply _| |intros _].
  { intros sf. unfold recoverCandidates.
    destruct (_ && _); [|done].
    destruct (getCandidates sf _) as [l|]; [|done].
    destruct (CandidatesToMap l) as [m|] eqn:Hm; [|done].
    intros _. simpl. by apply (CandidatesToMap_keyed l). }
  apply keeps_bind; [apply _|apply Hw, handleTsf_pool|intros _].
  apply keeps_bind; [apply _|apply handleVote_keyed|intros _].
  apply keeps_bind; [apply _| |intros _].
  { intros sf. apply keeps_forM_; [apply _..|apply commitAccount_keyed]. }
  apply keeps_bind; [apply _| |intros _].
  { intros sf. apply Hw. apply keeps_forM_; [apply _..|intros [addr contract]].
    unfold commitContract.
    apply keeps_bind; [apply _|keeps_by_cases|intros c]. apply putState_pool. }
  apply keeps_bind; [apply _| |intros _].
  { apply Hw, keeps_forM_; [apply _..|intros e]. unfold commitExecution.
    intros sf. destruct (cachedAccount sf !! _).
    - etransitivity; [|apply putState_pool]. done.
    - destruct (getState sf _); [apply putState_pool|done]. }
  apply keeps_bind; [apply _| |intros _].
  { apply Hw. unfold accountTrie_Commit. keeps_by_cases. }
  apply keeps_bind; [apply _| |intros _].
  { apply Hw. unfold persistCandidates.
    apply keeps_bind; [apply _| |intros l].
    { apply keeps_wrapErr. keeps_by_cases. }
    apply keeps_bind; [apply _| |intros bs].
    { apply keeps_wrapErr, liftR_pool. }
    apply keeps_bind; [apply _| |intros _];
      apply keeps_wrapErr; unfold liftE; keeps_by_cases. }
  apply Hw. unfold persistRoots, trieDB_Put, liftE.
  repeat first
    [ apply keeps_bind; [apply _| |intros ?]
    | apply keeps_wrapErr
    | keeps_by_cases ].
Qed.

(** From a pool keyed by address, the list a successful commit archives is
    the only sorted arrangement of the pool: it depends neither on the order
    in which the map is listed nor on the sorting algorithm. *)
Lemma CommitStateChanges_archive_unique
    blockHeight tsf vote executions (sf sf' : factory) (l : list Candidate.t) :
  pool_keyed (cachedCandidates sf) ->
  CommitStateChanges blockHeight tsf vote executions sf = (Ret tt, sf') ->
  Sorted cand_le l -> l ≡ₚ snd <$> map_to_list (cachedCandidates sf') ->
  l = sortCandidates (snd <$> range (cachedCandidates sf')).
Proof.
  intros Hk E HS HP.
  pose proof (CommitStateChanges_keyed blockHeight tsf vote executions sf) as Hk'.
  rewrite E in Hk'. specialize (Hk' Hk). simpl in Hk'.
  apply (sorted_pool_unique (cachedCandidates sf')); try done.
  - by rewrite range_perm.
  - by rewrite range_perm.
Qed.
End FactoryProperties.

(** ** Map-iteration order *)

(** When the pool, keyed by address, has more than [numCandidates] entries,
    [Candidates()] sorts before it truncates, and its result is the same
    under every iteration order of the map. *)
Lemma Candidates_truncated_any_order {T K C : Type} (r1 r2 : RangeOrder)
    (sf : factory T K C) :
  pool_keyed (cachedCandidates sf) ->
  numCandidates sf < Z.of_nat (size (cachedCandidates sf)) ->
  0 <= numCandidates sf ->
  @Candidates T K C r1 sf = @Candidates T K C r2 sf.
Proof.
  intros Hk Hlt Hnn.
  assert (Hlen : forall r : RangeOrder,
            length (snd <$> @range r _ (cachedCandidates sf))
            = size (cachedCandidates sf)).
  { intros r. rewrite length_fmap, range_perm. apply length_map_to_list. }
  assert (Hsort : sortCandidates (snd <$> @range r1 _ (cachedCandidates sf))
                  = sortCandidates (snd <$> @range r2 _ (cachedCandidates sf))).
  { apply (sorted_pool_unique (cachedCandidates sf)); try done.
    - by rewrite range_perm.
    - apply sortCandidates_Sorted.
    - by rewrite sortCandidates_Permutation, !range_perm. }
  unfold Candidates, MapToCandidates. rewrite !Hlen, Hsort.
  destruct (Z.leb_spec (Z.of_nat (size (cachedCandidates sf)))
              (uint_to_int (numCandidates sf))) as [Hle|_]; [|reflexivity].
  exfalso. unfold uint_to_int, two64 in Hle.
  destruct (Z.ltb_spec (numCandidates sf) (2 ^ 63)); lia.
Qed.

(** * The properties at the concrete blocks

    The instances of the theorems above at the concrete blocks, and the
    blocks on which the code departs from the specification. *)


(** [handleTsf_tx_applies_transfer] at the transfer of 30 from A (balance
    100, votee C) to B (votee D). *)
Lemma handleTsf_tx_applies_transfer_witness :
  viewState voted "A" = Some (State.mk 1 100 ZeroHash32B [] false 0 "C") /\
  viewState voted "B" = Some (State.mk 1 0 ZeroHash32B [] false 0 "D") /\
  exists sf',
    handleTsf_tx tsf_A_B_30 voted = (Ret tt, sf') /\
    viewState sf' "A" = Some (State.mk 2 70 ZeroHash32B [] false 0 "C") /\
    viewState sf' "C" = Some (State.mk 0 0 ZeroHash32B [] false 70 "") /\
    viewState sf' "B" = Some (State.mk 1 30 ZeroHash32B [] false 0 "D") /\
    viewState sf' "D" = Some (State.mk 0 0 ZeroHash32B [] false 30 "").
Proof.
  split; [reflexivity|]. split; [reflexivity|].
  destruct (handleTsf_tx_applies_transfer tsf_A_B_30 voted) as [_ Happ].
  destruct (Happ eq_refl eq_refl (State.mk 1 100 ZeroHash32B [] false 0 "C") eq_refl)
    as [_ Hok].
  destruct (Hok ltac:(vm_compute; discriminate)
              (State.mk 1 0 ZeroHash32B [] false 0 "D") eq_refl
              ltac:(intros _; vm_compute; eauto)
              ltac:(intros _; vm_compute; eauto))
    as (sf' & E & V & _).
  exists sf'. split; [exact E|].
  repeat split; rewrite V; reflexivity.
Defined.

(** [handleVote_v_applies_vote] at the self-vote of A, which had voted for
    C, at height 5. *)
Lemma handleVote_v_applies_vote_witness :
  viewState voted "A" = Some (State.mk 1 100 ZeroHash32B [] false 0 "C") /\
  exists sf',
    handleVote_v 5 vote_A_A voted = (Ret tt, sf') /\
    viewState sf' "A" = Some (State.mk 3 100 ZeroHash32B [] true 0 "A") /\
    viewState sf' "C" = Some (State.mk 0 0 ZeroHash32B [] false 0 "") /\
    cachedCandidates sf' !! "A" = Some (Candidate.mk "A" [1] 0 5 0).
Proof.
  split; [reflexivity|].
  pose proof (handleVote_v_applies_vote 5 vote_A_A voted
                (State.mk 1 100 ZeroHash32B [] false 0 "C")) as Hthm.
  specialize (Hthm ltac:(vm_compute; reflexivity)
                ltac:(intros _; vm_compute; eauto)
                ltac:(intros _; vm_compute; eauto)).
  destruct Hthm as (sf' & E & V & _ & Hpool & _).
  exists sf'. split; [exact E|].
  split; [rewrite V; reflexivity|]. split; [rewrite V; reflexivity|].
  apply Hpool; [discriminate|reflexivity|reflexivity].
Defined.

(** A run [r] that succeeds ends in [snd r]. *)
Ltac run_succeeds :=
  match goal with
  | |- ?r = (Ret tt, snd ?r) =>
      let H := fresh in
      assert (H : fst r = Ret tt) by (vm_compute; reflexivity);
      revert H; generalize r; intros [? ?]; simpl; by intros ->
  end.

Lemma block0_commit :
  CommitStateChanges 0 [Transfer.mk 1 30 "A" "B" false false] [] [] funded
  = (Ret tt, block0).
Proof. unfold block0. run_succeeds. Qed.

Lemma block1_commit :
  CommitStateChanges 1 []
    [Vote.mk 2 "A" "A" [1; 2]; Vote.mk 1 "B" "A" [3]]
    [Execution.mk 3 "A"] block0
  = (Ret tt, block1).
Proof. unfold block1. run_succeeds. Qed.

(** [CommitStateChanges_persists_root_and_height] at the commit of block 1. *)
Lemma CommitStateChanges_persists_root_and_height_witness :
  is_uint64 1 /\
  CommitStateChanges 1 []
    [Vote.mk 2 "A" "A" [1; 2]; Vote.mk 1 "B" "A" [3]]
    [Execution.mk 3 "A"] block0
  = (Ret tt, block1) /\
  kv_Get (trieDB block1) AccountKVNameSpace (string_to_bytes AccountTrieRootKey)
    = Ok (RootHash block1) /\
  length (RootHash block1) = 32%nat /\
  kv_Get (trieDB block1) AccountKVNameSpace (string_to_bytes CurrentHeightKey)
    = Ok (Uint64ToBytes 1) /\
  Height block1 = Ret 1.
Proof.
  assert (H1 : is_uint64 1) by (unfold is_uint64, two64; lia).
  split; [exact H1|]. split; [exact block1_commit|].
  exact (CommitStateChanges_persists_root_and_height 1 _ _ _ _ _ H1 block1_commit).
Defined.

(** [CommitStateChanges_overdraw_writes_nothing] at the overdraw scenario:
    A has 10 and transfers 20 to B. *)
Lemma CommitStateChanges_overdraw_writes_nothing_witness :
  fst (handleTsf_tx overdraw poor) = Fail ErrNotEnoughBalance /\
  fst (CommitStateChanges 0 [overdraw] [] [] poor) = Fail ErrNotEnoughBalance /\
  accountTrie (snd (CommitStateChanges 0 [overdraw] [] [] poor)) = accountTrie poor /\
  candidateTrie (snd (CommitStateChanges 0 [overdraw] [] [] poor))
    = candidateTrie poor /\
  trieDB (snd (CommitStateChanges 0 [overdraw] [] [] poor)) = trieDB poor.
Proof.
  split; [vm_compute; reflexivity|].
  pose proof (CommitStateChanges_overdraw_writes_nothing 0 [] overdraw [] [] []
                poor poor poor) as Hthm.
  specialize (Hthm ltac:(vm_compute; reflexivity) ltac:(vm_compute; reflexivity)
                ltac:(vm_compute; reflexivity)).
  destruct Hthm as (Hfail & Hat & Hct & Hdb & _).
  repeat (split; [assumption|]). assumption.
Defined.

(** [CommitStateChanges_height_is_the_argument] at the commits of blocks 0
    and 1. *)
Lemma CommitStateChanges_height_is_the_argument_witness :
  is_uint64 0 /\ is_uint64 1 /\
  CommitStateChanges 0 [Transfer.mk 1 30 "A" "B" false false] [] [] funded
  = (Ret tt, block0) /\
  CommitStateChanges 1 []
    [Vote.mk 2 "A" "A" [1; 2]; Vote.mk 1 "B" "A" [3]]
    [Execution.mk 3 "A"] block0
  = (Ret tt, block1) /\
  Height block0 = Ret 0 /\ currentChainHeight block0 = 0 /\
  Height block1 = Ret 1 /\ currentChainHeight block1 = 1.
Proof.
  assert (H0 : is_uint64 0) by (unfold is_uint64, two64; lia).
  assert (H1 : is_uint64 1) by (unfold is_uint64, two64; lia).
  destruct (CommitStateChanges_height_is_the_argument 0 1 _ _ _ _ _ _ _ _ _
              H0 H1 block0_commit block1_commit)
    as (? & ? & ? & ? & _).
  split; [assumption|]. split; [assumption|].
  split; [exact block0_commit|]. split; [exact block1_commit|].
  repeat (split; [assumption|]). assumption.
Defined.

(** The height is not checked: after block 1, a commit at height 0 succeeds
    and the persisted height goes back from 1 to 0. *)
Lemma CommitStateChanges_accepts_lower_height :
  Height block1 = Ret 1 /\
  fst (CommitStateChanges 0 [] [] [] block1) = Ret tt /\
  Height (snd (CommitStateChanges 0 [] [] [] block1)) = Ret 0.
Proof. vm_compute. repeat split. Qed.

(** C6, where the code departs from it.  With room for both candidates
    ([numCandidates] is 2), [Candidates()] returns the pool in the order the
    map iteration gives: A (50 votes) before B (100 votes) under one order, B
    before A under the other.  The first list is not sorted, and the two
    calls, on the same pool, do not return the same sequence. *)
Theorem Candidates_small_pool_unsorted :
  cachedCandidates (two_candidates 2) = {[ "A" := cand_A; "B" := cand_B ]} /\
  @Candidates _ _ _ forwardOrder (two_candidates 2) = Some (0, [cand_A; cand_B]) /\
  @Candidates _ _ _ backwardOrder (two_candidates 2) = Some (0, [cand_B; cand_A]) /\
  Less cand_B cand_A = true /\
  ~ Sorted cand_le [cand_A; cand_B].
Proof.
  split; [vm_compute; reflexivity|].
  split; [vm_compute; reflexivity|].
  split; [vm_compute; reflexivity|].
  split; [reflexivity|].
  intros HS. inversion HS as [|? ? _ Hhd]; subst.
  inversion Hhd as [|? ? Hle]; subst. vm_compute in Hle. discriminate.
Qed.

Lemma two_candidates_commit :
  CommitStateChanges 0 [] nominate [] (two_accounts 1) = (Ret tt, two_candidates 1).
Proof. unfold two_candidates. run_succeeds. Qed.

(** [CommitStateChanges_archives_whole_sorted_pool] at the commit that
    nominates A and B. *)
Lemma CommitStateChanges_archives_whole_sorted_pool_witness :
  CommitStateChanges 0 [] nominate [] (two_accounts 1) = (Ret tt, two_candidates 1) /\
  exists candidatesBytes,
    Serialize (sortCandidates
                 (snd <$> range (cachedCandidates (two_candidates 1))))
      = Ok candidatesBytes /\
    trie_Get (candidateTrie (two_candidates 1)) (Uint64ToBytes 0)
      = Ok candidatesBytes /\
    length (sortCandidates (snd <$> range (cachedCandidates (two_candidates 1))))
      = size (cachedCandidates (two_candidates 1)).
Proof.
  destruct (CommitStateChanges_archives_whole_sorted_pool 0 _ _ _ _ _
              two_candidates_commit)
    as (archived & bs & -> & HS & HG & _ & _ & Hlen).
  split; [exact two_candidates_commit|].
  exists bs. repeat (split; [assumption|]). assumption.
Defined.

(** The archive is not truncated: with [numCandidates] 1 and a pool of two,
    the value stored under height 0 is the serialization of both candidates,
    not of the one candidate that the truncated list holds. *)
Lemma CommitStateChanges_archive_not_truncated :
  numCandidates (two_candidates 1) = 1 /\
  fst (CommitStateChanges 0 [] nominate [] (two_accounts 1)) = Ret tt /\
  sortCandidates (snd <$> range (cachedCandidates (two_candidates 1)))
    = [cand_B; cand_A] /\
  trie_Get (candidateTrie (two_candidates 1)) (Uint64ToBytes 0)
    = Serialize [cand_B; cand_A] /\
  Serialize (take 1 [cand_B; cand_A]) <> Serialize [cand_B; cand_A] /\
  CandidatesByHeight (two_candidates 1) 0 = Some (Ok [cand_B]).
Proof. vm_compute. repeat split. discriminate. Qed.

(** [absent_address_LoadOrCreateState_creates_CachedState_fails] at an
    address that nothing knows. *)
Lemma absent_address_LoadOrCreateState_creates_CachedState_fails_witness :
  GetPubkeyHash "Z" = Ok (BytesTo20B (string_to_bytes "Z")) /\
  cachedAccount (genesis 2) !! "Z" = None /\
  (exists state sf',
     LoadOrCreateState "Z" 7 (genesis 2) = (Ret state, sf') /\
     cachedAccount sf' = <[ "Z" := state ]> (cachedAccount (genesis 2)) /\
     State.Balance state = 7) /\
  (exists e, State (genesis 2) "Z" = Err e /\ Cause e = ErrAccountNotExist).
Proof.
  split; [reflexivity|]. split; [reflexivity|].
  pose proof (absent_address_LoadOrCreateState_creates_CachedState_fails
                "Z" 7 (BytesTo20B (string_to_bytes "Z"))
                (ErrWrap TrieErrNotExist "key does not exist") (genesis 2)) as Hthm.
  specialize (Hthm ltac:(vm_compute; reflexivity) ltac:(vm_compute; reflexivity)
                ltac:(vm_compute; reflexivity) ltac:(reflexivity)).
  destruct Hthm as ((state & sf' & E & Hc & Hb & _) & _ & HState).
  split; [|exact HState].
  exists state, sf'. repeat (split; [assumption|]). assumption.
Defined.

(** [CachedState] on an address that is in neither cache nor in the trie
    returns the account-not-found error and caches nothing. *)
Lemma CachedState_absent_address_not_found :
  cachedAccount (genesis 2) !! "Z" = None /\
  State (genesis 2) "Z" = Err (ErrWrap ErrAccountNotExist "addrHash") /\
  CachedState "Z" (genesis 2)
    = (Fail (ErrWrap ErrAccountNotExist "addrHash"), genesis 2) /\
  Cause (ErrWrap ErrAccountNotExist "addrHash") = ErrAccountNotExist.
Proof. vm_compute. repeat split. Qed.

(** [commitExecution_increments_then_maxes] at an execution of A (nonce 0)
    with nonce 1. *)
Lemma commitExecution_increments_then_maxes_witness :
  fst (commitExecution exec_A_1 funded) = Ret tt /\
  exists pre post,
    cachedAccount funded !! "A" = Some pre /\
    cachedAccount (snd (commitExecution exec_A_1 funded)) !! "A" = Some post /\
    State.Nonce pre = 0 /\ State.Nonce post = 1.
Proof.
  split; [vm_compute; reflexivity|].
  pose proof (commitExecution_increments_then_maxes exec_A_1 funded
                (snd (commitExecution exec_A_1 funded))) as Hthm.
  specialize (Hthm ltac:(vm_compute; reflexivity)).
  destruct Hthm as (pre & post & ss & Hcase & _ & _ & _ & _ & Hnext & _).
  destruct Hcase as [[Hpre Hpost]|[Hnone _]]; [|discriminate Hnone].
  exists pre, post. split; [exact Hpre|].
  assert (Hpre0 : State.Nonce pre = 0).
  { vm_compute in Hpre. injection Hpre as <-. reflexivity. }
  split; [rewrite Hpost; apply lookup_insert_eq|].
  split; [exact Hpre0|].
  rewrite Hnext; [rewrite Hpre0; reflexivity| |rewrite Hpre0; reflexivity].
  unfold is_uint64, two64. simpl. lia.
Defined.

(** C10, where the code departs from it.  A transfer of A with the largest
    [uint64] as nonce is committed in block 0 and leaves A with that nonce;
    an execution of A with nonce 7 is committed in block 1: the increment of
    the nonce wraps to 0, and the nonce of A, in the cache and in the account
    trie, is 7, less than before. *)
Theorem execution_nonce_wraps_and_decreases :
  is_uint64 max_uint64 /\
  fst (CommitStateChanges 0 [Transfer.mk max_uint64 1 "A" "B" false false] [] []
         funded) = Ret tt /\
  Nonce after_max_nonce "A" = Ok max_uint64 /\
  fst (CommitStateChanges 1 [] [] [Execution.mk 7 "A"] after_max_nonce) = Ret tt /\
  Nonce after_execution "A" = Ok 7 /\
  State.Nonce <$> cachedAccount after_execution !! "A" = Some 7 /\
  7 < max_uint64.
Proof. vm_compute. repeat split; discriminate. Qed.
